(** * A chat relay over WebSocket and Redis pub/sub: model of [main.py]

    The development embeds the handler class [WebSocketHandler] ([open],
    [on_message], [on_close], [check_origin], [update_clients_list]) and the
    bus listener ([redis_listener], [start_redis_listener]) as functions over
    an explicit world state, in a state-and-exception monad: a Python
    exception leaves the mutations made before it in place.

    Python [str] values are lists of code points.  The JSON text the program
    writes and reads is modelled after CPython's [json] module with its
    default settings ([ensure_ascii=True], separators [", "] and [": "],
    strict decoding).

    The model is sequential: a handler call or the processing of one bus
    message runs to its end before the next one starts.  The interleaving of
    the listener thread with the I/O loop, the Redis connection itself and
    the asynchronous completion of a write are outside the model. *)

From Stdlib Require Import ZArith NArith List Lia String Ascii Decimal.
From stdpp Require Import gmap list.

Set Warnings "-register-all".

Open Scope N_scope.

(** ** Python strings *)

Module PyStr.

(** A [str] is a sequence of code points. *)
Definition pystr := list N.

(** An ASCII literal of the source, as a [str]. *)
Definition lit (s : string) : pystr :=
  List.map N_of_ascii (list_ascii_of_string s).

Fixpoint eqb (a b : pystr) : bool :=
  match a, b with
  | [], [] => true
  | x :: a', y :: b' => (x =? y) && eqb a' b'
  | _, _ => false
  end.

(** [s[len(p):]] when [s.startswith(p)]. *)
Fixpoint strip_prefix (p s : pystr) : option pystr :=
  match p with
  | [] => Some s
  | x :: p' =>
      match s with
      | [] => None
      | y :: s' => if x =? y then strip_prefix p' s' else None
      end
  end.

(** [sep.join(parts)]. *)
Fixpoint join (sep : pystr) (parts : list pystr) : pystr :=
  match parts with
  | [] => []
  | [p] => p
  | p :: rest => p ++ sep ++ join sep rest
  end.

End PyStr.
Import PyStr.

(** ** Hexadecimal digits *)

Module Hex.

(** One lower-case hexadecimal digit, as [format(d, "x")] prints it. *)
Definition hexdigit (d : N) : N :=
  if d <? 10 then 48 + d else 87 + d.

(** ['{0:04x}'.format(n)] for [n < 0x10000]. *)
Definition hex4 (n : N) : pystr :=
  [ hexdigit (n / 4096 mod 16); hexdigit (n / 256 mod 16);
    hexdigit (n / 16 mod 16); hexdigit (n mod 16) ].

(** The value of a character of [[0-9A-Fa-f]]. *)
Definition hexval (c : N) : option N :=
  if (48 <=? c) && (c <=? 57) then Some (c - 48)
  else if (97 <=? c) && (c <=? 102) then Some (c - 87)
  else if (65 <=? c) && (c <=? 70) then Some (c - 55)
  else None.

(** [int(esc, 16)] on four characters matched by [[0-9A-Fa-f]{4}]. *)
Definition decode_hex4 (a b c d : N) : option N :=
  match hexval a, hexval b, hexval c, hexval d with
  | Some x, Some y, Some z, Some w => Some (x * 4096 + y * 256 + z * 16 + w)
  | _, _, _, _ => None
  end.

End Hex.
Import Hex.

(** ** JSON values, [json.dumps] and [json.loads] *)

(** What CPython prints for the float it parses from a number lexeme with a
    fraction or an exponent, or from [NaN], [Infinity] and [-Infinity]
    ([float.__repr__] of [float(lexeme)]).  Binary floating point is outside
    the model: that text is an interface of the development. *)
Class PyFloat := float_text : pystr -> pystr.

Module Json.

(** The Python values [json.loads] builds.  A [dict] keeps its keys in
    insertion order, so an object is the list of its items in that order. *)
Inductive json : Type :=
  | JNull
  | JBool (b : bool)
  | JInt (z : Z)
  | JFloat (lexeme : pystr)
  | JStr (s : pystr)
  | JArr (items : list json)
  | JObj (items : list (pystr * json)).

(** *** Encoder *)

(** [py_encode_basestring_ascii]: the replacement of one character matched
    by [ESCAPE_ASCII], or the character itself in [' '..'~'] other than the
    quote and the backslash. *)
Definition escape_char (c : N) : pystr :=
  if c =? 34 then [92; 34]
  else if c =? 92 then [92; 92]
  else if c =? 8 then [92; 98]
  else if c =? 12 then [92; 102]
  else if c =? 10 then [92; 110]
  else if c =? 13 then [92; 114]
  else if c =? 9 then [92; 116]
  else if (32 <=? c) && (c <=? 126) then [c]
  else if c <? 65536 then 92 :: 117 :: hex4 c
  else
    let n := c - 65536 in
    let s1 := N.lor 55296 (N.land (N.shiftr n 10) 1023) in
    let s2 := N.lor 56320 (N.land n 1023) in
    (92 :: 117 :: hex4 s1) ++ (92 :: 117 :: hex4 s2).

Definition escape_body (s : pystr) : pystr := flat_map escape_char s.

Definition encode_basestring_ascii (s : pystr) : pystr :=
  34 :: escape_body s ++ [34].

Fixpoint uint_digits (u : Decimal.uint) : pystr :=
  match u with
  | Nil => []
  | D0 u' => 48 :: uint_digits u'
  | D1 u' => 49 :: uint_digits u'
  | D2 u' => 50 :: uint_digits u'
  | D3 u' => 51 :: uint_digits u'
  | D4 u' => 52 :: uint_digits u'
  | D5 u' => 53 :: uint_digits u'
  | D6 u' => 54 :: uint_digits u'
  | D7 u' => 55 :: uint_digits u'
  | D8 u' => 56 :: uint_digits u'
  | D9 u' => 57 :: uint_digits u'
  end.

(** [int.__repr__]. *)
Definition int_text (z : Z) : pystr :=
  match Z.to_int z with
  | Decimal.Pos u => uint_digits u
  | Decimal.Neg u => 45 :: uint_digits u
  end.

Section Encoder.
Context `{PyFloat}.

(** [json.dumps(v)] with the default arguments. *)
Fixpoint json_dumps (v : json) : pystr :=
  match v with
  | JNull => lit "null"
  | JBool true => lit "true"
  | JBool false => lit "false"
  | JInt z => int_text z
  | JFloat lx => float_text lx
  | JStr s => encode_basestring_ascii s
  | JArr items =>
      91 :: join (lit ", ") (List.map json_dumps items) ++ [93]
  | JObj items =>
      123 :: join (lit ", ")
               (List.map (fun kv => encode_basestring_ascii (fst kv)
                                    ++ lit ": " ++ json_dumps (snd kv))
                         items) ++ [125]
  end.
End Encoder.

(** *** Decoder *)

(** Result of a scanner run with a recursion budget: a value, a
    [JSONDecodeError], or an exhausted budget. *)
Inductive pres (A : Type) : Type :=
  | POk (a : A)
  | PErr
  | PFuel.
Arguments POk {A} a.
Arguments PErr {A}.
Arguments PFuel {A}.

Definition is_ws (c : N) : bool :=
  (c =? 32) || (c =? 9) || (c =? 10) || (c =? 13).

(** [WHITESPACE.match(s, end).end()]. *)
Fixpoint skip_ws (s : pystr) : pystr :=
  match s with
  | c :: r => if is_ws c then skip_ws r else s
  | [] => []
  end.

(** The [BACKSLASH] table of the decoder. *)
Definition unescape (e : N) : option N :=
  if e =? 34 then Some 34
  else if e =? 92 then Some 92
  else if e =? 47 then Some 47
  else if e =? 98 then Some 8
  else if e =? 102 then Some 12
  else if e =? 110 then Some 10
  else if e =? 114 then Some 13
  else if e =? 116 then Some 9
  else None.

Definition is_high_surrogate (u : N) : bool := (55296 <=? u) && (u <=? 56319).
Definition is_low_surrogate (u : N) : bool := (56320 <=? u) && (u <=? 57343).

Definition join_surrogates (hi lo : N) : N :=
  65536 + N.lor (N.shiftl (hi - 55296) 10) (lo - 56320).

Definition cons_char (c : N) (r : option (pystr * pystr)) : option (pystr * pystr) :=
  match r with
  | Some (str, rest) => Some (c :: str, rest)
  | None => None
  end.

(** [py_scanstring(s, end, strict=True)], entered after the opening quote:
    the decoded string and the text after the closing quote, or [None]
    for a [JSONDecodeError]. *)
Fixpoint scanstring (s : pystr) : option (pystr * pystr) :=
  match s with
  | [] => None
  | c :: r =>
      if c =? 34 then Some ([], r)
      else if c =? 92 then
        match r with
        | [] => None
        | e :: r1 =>
            if e =? 117 then
              match r1 with
              | h1 :: h2 :: h3 :: h4 :: r2 =>
                  match decode_hex4 h1 h2 h3 h4 with
                  | None => None
                  | Some uni =>
                      if is_high_surrogate uni then
                        match r2 with
                        | b :: u :: r3 =>
                            if (b =? 92) && (u =? 117) then
                              match r3 with
                              | g1 :: g2 :: g3 :: g4 :: r4 =>
                                  match decode_hex4 g1 g2 g3 g4 with
                                  | None => None
                                  | Some uni2 =>
                                      if is_low_surrogate uni2
                                      then cons_char (join_surrogates uni uni2)
                                                     (scanstring r4)
                                      else cons_char uni (scanstring r2)
                                  end
                              | _ => None
                              end
                            else cons_char uni (scanstring r2)
                        | _ => cons_char uni (scanstring r2)
                        end
                      else cons_char uni (scanstring r2)
                  end
              | _ => None
              end
            else
              match unescape e with
              | Some ch => cons_char ch (scanstring r1)
              | None => None
              end
        end
      else if c <? 32 then None
      else cons_char c (scanstring r)
  end.

(** *** Numbers: [NUMBER_RE] *)

Definition is_digit (c : N) : bool := (48 <=? c) && (c <=? 57).

Fixpoint span_digits (s : pystr) : pystr * pystr :=
  match s with
  | c :: r =>
      if is_digit c
      then let '(d, r') := span_digits r in (c :: d, r')
      else ([], s)
  | [] => ([], [])
  end.

(** The integer group of [NUMBER_RE]: an optional minus sign, then [0] or
    a non-zero digit followed by digits. *)
Definition match_integer (s : pystr) : option (pystr * pystr) :=
  let '(sign, r) :=
    match s with
    | c :: r => if c =? 45 then ([45], r) else ([], s)
    | [] => ([], s)
    end in
  match r with
  | c :: r1 =>
      if c =? 48 then Some (sign ++ [48], r1)
      else if is_digit c
           then let '(d, r2) := span_digits r1 in Some (sign ++ c :: d, r2)
           else None
  | [] => None
  end.

(** The optional fraction group: a dot and at least one digit. *)
Definition match_frac (s : pystr) : pystr * pystr :=
  match s with
  | c :: r =>
      if c =? 46 then
        match span_digits r with
        | ([], _) => ([], s)
        | (d, r') => (46 :: d, r')
        end
      else ([], s)
  | [] => ([], s)
  end.

(** The optional exponent group: [e] or [E], an optional sign and at least
    one digit. *)
Definition match_exp (s : pystr) : pystr * pystr :=
  match s with
  | c :: r =>
      if (c =? 101) || (c =? 69) then
        let '(sg, r1) :=
          match r with
          | x :: r' => if (x =? 45) || (x =? 43) then ([x], r') else ([], r)
          | [] => ([], r)
          end in
        match span_digits r1 with
        | ([], _) => ([], s)
        | (d, r2) => (c :: sg ++ d, r2)
        end
      else ([], s)
  | [] => ([], s)
  end.

Definition digits_value (d : pystr) : N :=
  fold_left (fun acc c => acc * 10 + (c - 48)) d 0.

(** [int(integer)] on a lexeme matched by {!match_integer}. *)
Definition parse_int (lx : pystr) : Z :=
  match lx with
  | c :: d => if c =? 45 then (- Z.of_N (digits_value d))%Z
              else Z.of_N (digits_value lx)
  | [] => 0%Z
  end.

(** [match_number] and the branch of [_scan_once] that follows it. *)
Definition scan_number (s : pystr) : option (json * pystr) :=
  match match_integer s with
  | None => None
  | Some (integer, r) =>
      let '(frac, r1) := match_frac r in
      let '(exp, r2) := match_exp r1 in
      match frac, exp with
      | [], [] => Some (JInt (parse_int integer), r2)
      | _, _ => Some (JFloat (integer ++ frac ++ exp), r2)
      end
  end.

(** *** Objects and arrays *)

(** [d[k] = v] on a [dict] in insertion order. *)
Fixpoint dict_set (k : pystr) (v : json) (d : list (pystr * json))
  : list (pystr * json) :=
  match d with
  | [] => [(k, v)]
  | (k', v') :: d' =>
      if PyStr.eqb k' k then (k', v) :: d' else (k', v') :: dict_set k v d'
  end.

(** [dict(pairs)]. *)
Definition dict_of_pairs (pairs : list (pystr * json)) : list (pystr * json) :=
  fold_left (fun d kv => dict_set (fst kv) (snd kv) d) pairs [].

(** A constant of [_scan_once]: [string[idx:idx+len(word)] == word]. *)
Definition scan_word (word : string) (v : json) (s : pystr)
  : option (json * pystr) :=
  match strip_prefix (lit word) s with
  | Some r => Some (v, r)
  | None => None
  end.

Definition first_some {A} (a b : option A) : option A :=
  match a with
  | Some _ => a
  | None => b
  end.

(** The branches of [_scan_once] for constants and numbers, in its order:
    [null], [true], [false], a number, [NaN], [Infinity], [-Infinity]. *)
Definition scan_literal (s : pystr) : option (json * pystr) :=
  first_some (scan_word "null" JNull s)
  (first_some (scan_word "true" (JBool true) s)
  (first_some (scan_word "false" (JBool false) s)
  (first_some (scan_number s)
  (first_some (scan_word "NaN" (JFloat (lit "NaN")) s)
  (first_some (scan_word "Infinity" (JFloat (lit "Infinity")) s)
             (scan_word "-Infinity" (JFloat (lit "-Infinity")) s)))))).

(** [_scan_once] with [JSONObject] and [JSONArray].  [scan_once] reads the
    value at the head of [s]; [parse_members] is the loop of [JSONObject],
    entered after the opening quote of a key with the pairs read so far;
    [parse_elems] is the loop of [JSONArray], entered at a value with the
    values read so far.  Every call spends one unit of [fuel]. *)
Fixpoint scan_once (fuel : nat) (s : pystr) {struct fuel}
  : pres (json * pystr) :=
  match fuel with
  | O => PFuel
  | S f =>
      match s with
      | [] => PErr
      | c :: r =>
          if c =? 34 then
            match scanstring r with
            | Some (str, r') => POk (JStr str, r')
            | None => PErr
            end
          else if c =? 123 then
            match skip_ws r with
            | c1 :: r1 =>
                if c1 =? 125 then POk (JObj [], r1)
                else if c1 =? 34 then parse_members f r1 []
                else PErr
            | [] => PErr
            end
          else if c =? 91 then
            match skip_ws r with
            | c1 :: r1 =>
                if c1 =? 93 then POk (JArr [], r1)
                else parse_elems f (c1 :: r1) []
            | [] => PErr
            end
          else
            match scan_literal s with
            | Some vr => POk vr
            | None => PErr
            end
      end
  end
  with parse_members (fuel : nat) (s : pystr) (acc : list (pystr * json))
       {struct fuel} : pres (json * pystr) :=
  match fuel with
  | O => PFuel
  | S f =>
      match scanstring s with
      | None => PErr
      | Some (key, r) =>
          match skip_ws r with
          | c :: r1 =>
              if c =? 58 then
                match scan_once f (skip_ws r1) with
                | POk (v, r2) =>
                    match skip_ws r2 with
                    | d :: r3 =>
                        if d =? 125
                        then POk (JObj (dict_of_pairs (acc ++ [(key, v)])), r3)
                        else if d =? 44 then
                          match skip_ws r3 with
                          | q :: r4 =>
                              if q =? 34
                              then parse_members f r4 (acc ++ [(key, v)])
                              else PErr
                          | [] => PErr
                          end
                        else PErr
                    | [] => PErr
                    end
                | PErr => PErr
                | PFuel => PFuel
                end
              else PErr
          | [] => PErr
          end
      end
  end
  with parse_elems (fuel : nat) (s : pystr) (acc : list json)
       {struct fuel} : pres (json * pystr) :=
  match fuel with
  | O => PFuel
  | S f =>
      match scan_once f s with
      | POk (v, r) =>
          match skip_ws r with
          | d :: r1 =>
              if d =? 93 then POk (JArr (acc ++ [v]), r1)
              else if d =? 44 then parse_elems f (skip_ws r1) (acc ++ [v])
              else PErr
          | [] => PErr
          end
      | PErr => PErr
      | PFuel => PFuel
      end
  end.

(** [json.loads(s)] for a [str]: [JSONDecoder.decode], which skips leading
    white space, scans one value and rejects anything but white space after
    it.  The budget is two units for every character, and two more:
    enough for any text (see [json_loads_budget]).  CPython's recursion
    limit and its limit on the digits of an integer are not modelled. *)
Definition json_loads (s : pystr) : pres json :=
  match scan_once (2 * length s + 2) (skip_ws s) with
  | POk (v, r) =>
      match skip_ws r with
      | [] => POk v
      | _ :: _ => PErr
      end
  | PErr => PErr
  | PFuel => PFuel
  end.

End Json.
Import Json.

(** ** [uuid.uuid4] and [str(UUID)] *)

Module Uuid.

(** [width] lower-case hexadecimal digits of [n], most significant first:
    ['%032x' % n] at width 32 for [n < 2**128]. *)
Fixpoint hex_fixed (width : nat) (n : N) : pystr :=
  match width with
  | O => []
  | S w => hexdigit (n / 16 ^ N.of_nat w mod 16) :: hex_fixed w n
  end.

(** [UUID(bytes=os.urandom(16), version=4).int]: the sixteen random bytes
    as a number [rand], with the variant and version bits forced. *)
Definition uuid4 (rand : N) : N :=
  let i := rand mod 2 ^ 128 in
  let i := N.ldiff i (N.shiftl 49152 48) in
  let i := N.lor i (N.shiftl 32768 48) in
  let i := N.ldiff i (N.shiftl 61440 64) in
  N.lor i (N.shiftl 4 76).

(** [UUID.__str__]. *)
Definition uuid_str (i : N) : pystr :=
  let hex := hex_fixed 32 i in
  firstn 8 hex ++ [45] ++ firstn 4 (skipn 8 hex) ++ [45]
    ++ firstn 4 (skipn 12 hex) ++ [45] ++ firstn 4 (skipn 16 hex) ++ [45]
    ++ skipn 20 hex.

End Uuid.
Import Uuid.

(** ** The process: registry, presence store, bus and transport *)

Module Chat.

(** A handler instance, that is one client connection. *)
Definition conn := nat.

(** The exceptions the modelled code can raise. *)
Inductive exn : Type :=
  | KeyError
  | AttributeError
  | TypeError
  | JSONDecodeError
  | WebSocketClosedError.

(** - [clients]: the class attribute [WebSocketHandler.clients];
    - [username]: the attribute [self.username] of each handler;
    - [online_clients]: the Redis set of that name;
    - [published]: what was published on the bus, as (channel, payload);
    - [closed]: the connections whose channel is closed or closing, on
      which Tornado's [write_message] raises [WebSocketClosedError];
    - [outbox]: the frames written so far, as (recipient, payload). *)
Record world : Type := mkWorld {
  clients : gset conn;
  username : gmap conn pystr;
  online_clients : gset pystr;
  published : list (pystr * pystr);
  closed : gset conn;
  outbox : list (conn * pystr)
}.

Definition set_clients (f : gset conn -> gset conn) (w : world) : world :=
  mkWorld (f (clients w)) (username w) (online_clients w) (published w)
          (closed w) (outbox w).
Definition set_username (f : gmap conn pystr -> gmap conn pystr) (w : world) : world :=
  mkWorld (clients w) (f (username w)) (online_clients w) (published w)
          (closed w) (outbox w).
Definition set_online (f : gset pystr -> gset pystr) (w : world) : world :=
  mkWorld (clients w) (username w) (f (online_clients w)) (published w)
          (closed w) (outbox w).
Definition set_published (f : list (pystr * pystr) -> list (pystr * pystr))
           (w : world) : world :=
  mkWorld (clients w) (username w) (online_clients w) (f (published w))
          (closed w) (outbox w).
Definition set_outbox (f : list (conn * pystr) -> list (conn * pystr))
           (w : world) : world :=
  mkWorld (clients w) (username w) (online_clients w) (published w)
          (closed w) (f (outbox w)).

(** *** State and exceptions *)

Inductive outcome (A : Type) : Type :=
  | Return (a : A)
  | Raise (e : exn).
Arguments Return {A} a.
Arguments Raise {A} e.

(** A statement: it runs on a world and returns or raises, and either way
    leaves the world as it was changed so far. *)
Definition M (A : Type) : Type := world -> outcome A * world.

Definition ret {A} (a : A) : M A := fun w => (Return a, w).
Definition raise {A} (e : exn) : M A := fun w => (Raise e, w).
Definition bind {A B} (m : M A) (k : A -> M B) : M B :=
  fun w =>
    match m w with
    | (Return a, w') => k a w'
    | (Raise e, w') => (Raise e, w')
    end.
Definition gets {A} (f : world -> A) : M A := fun w => (Return (f w), w).
Definition modify (f : world -> world) : M unit := fun w => (Return tt, f w).

#[export] Instance M_ret : MRet M := @ret.
#[export] Instance M_bind : MBind M := fun A B k m => bind m k.

(** [for x in xs: body(x)]. *)
Fixpoint for_each {A} (xs : list A) (body : A -> M unit) : M unit :=
  match xs with
  | [] => ret tt
  | x :: rest => body x;; for_each rest body
  end.

(** *** The collaborators *)

(** Tornado's [WebSocketHandler.write_message]: it raises on a channel that
    is closed or closing and queues the frame otherwise. *)
Definition write_message (c : conn) (payload : pystr) : M unit :=
  fun w =>
    if decide (c ∈ closed w)
    then (Raise WebSocketClosedError, w)
    else (Return tt, set_outbox (fun o => o ++ [(c, payload)]) w).

(** [self.username]. *)
Definition get_username (self : conn) : M pystr :=
  fun w =>
    match username w !! self with
    | Some u => (Return u, w)
    | None => (Raise AttributeError, w)
    end.

(** [redis_client.sadd("online_clients", u)], [srem] and [smembers]. *)
Definition sadd_online (u : pystr) : M unit :=
  modify (set_online (fun s => s ∪ {[u]})).
Definition srem_online (u : pystr) : M unit :=
  modify (set_online (fun s => s ∖ {[u]})).
Definition smembers_online : M (list pystr) :=
  gets (fun w => elements (online_clients w)).

(** [redis_client.publish(channel, payload)]. *)
Definition publish (channel payload : pystr) : M unit :=
  modify (set_published (fun p => p ++ [(channel, payload)])).

(** What [pubsub.listen()] yields: the [type] and the [data] of a
    message; [data] is a [str] for a published payload and a number for a
    subscription confirmation. *)
Inductive bus_data : Type :=
  | DataStr (s : pystr)
  | DataInt (n : Z).

Record bus_message : Type := mkBusMessage {
  msg_type : pystr;
  msg_data : bus_data
}.

(** The message a subscriber of the channel receives for a payload
    published on it. *)
Definition delivery (payload : pystr) : bus_message :=
  mkBusMessage (lit "message") (DataStr payload).

(** [json.loads(x)] as a statement. *)
Definition loads (x : bus_data) : M json :=
  match x with
  | DataInt _ => raise TypeError
  | DataStr s =>
      match json_loads s with
      | POk v => ret v
      | PErr => raise JSONDecodeError
      | PFuel => raise JSONDecodeError
      end
  end.

(** The greeting of the welcome message, before the user name. *)
Definition greeting : pystr :=
  [1044; 1086; 1073; 1088; 1086; 32; 1087; 1086; 1078; 1072; 1083; 1086;
   1074; 1072; 1090; 1100; 32; 1074; 32; 1095; 1072; 1090; 44; 32].

(** Every registered connection has an open channel. *)
Definition all_open (w : world) : Prop :=
  forall c, c ∈ clients w -> c ∉ closed w.

(** The world after [payload] was written to each of [cs], in order. *)
Definition sent_to (cs : list conn) (payload : pystr) (w : world) : world :=
  set_outbox (fun o => o ++ List.map (fun c => (c, payload)) cs) w.

(** The world after [open] has stored the user name and registered the
    connection in the registry and the presence set. *)
Definition registered (self : conn) (name : pystr) (w : world) : world :=
  set_online (fun s => s ∪ {[name]})
    (set_clients (fun s => s ∪ {[self]})
       (set_username (fun m => <[self := name]> m) w)).

(** *** [WebSocketHandler] and the listener *)

Section Handlers.
Context `{PyFloat}.

Definition clients_envelope (online : list pystr) : json :=
  JObj [(lit "type", JStr (lit "clients"));
        (lit "clients", JArr (List.map JStr online))].

Definition welcome_envelope (u : pystr) : json :=
  JObj [(lit "type", JStr (lit "welcome"));
        (lit "message", JStr (greeting ++ u ++ lit "!"))].

Definition message_envelope (sender message : pystr) : json :=
  JObj [(lit "type", JStr (lit "message"));
        (lit "data", JObj [(lit "sender", JStr sender);
                           (lit "message", JStr message)])].

(** The text of the welcome message for user name [u]. *)
Definition welcome_text (u : pystr) : pystr :=
  json_dumps (welcome_envelope u).

(** The text of the roster update computed in world [w]. *)
Definition roster_text (w : world) : pystr :=
  json_dumps (clients_envelope (elements (online_clients w))).

Definition update_clients_list (self : conn) : M unit :=
  online ← smembers_online;
  let data := clients_envelope online in
  cs ← gets (fun w => elements (clients w));
  for_each cs (fun client => write_message client (json_dumps data)).

(** The first three lines of [open]: the name the handler keeps.
    [requested] is what [self.get_argument("username", None)] returns;
    [rand] is the randomness [uuid.uuid4()] draws when it is called. *)
Definition assigned_username (requested : option pystr) (rand : N) : pystr :=
  match requested with
  | None | Some [] => lit "User-" ++ firstn 8 (uuid_str (uuid4 rand))
  | Some u => u
  end.

Definition open (self : conn) (requested : option pystr) (rand : N) : M unit :=
  let name := assigned_username requested rand in
  modify (set_username (fun m => <[self := name]> m));;
  modify (set_clients (fun s => s ∪ {[self]}));;
  sadd_online name;;
  update_clients_list self;;
  write_message self (json_dumps (welcome_envelope name)).

Definition on_message (self : conn) (message : pystr) : M unit :=
  sender ← get_username self;
  let data := message_envelope sender message in
  publish (lit "chat_channel") (json_dumps data).

Definition on_close (self : conn) : M unit :=
  present ← gets (fun w => bool_decide (self ∈ clients w));
  (if present : bool
   then modify (set_clients (fun s => s ∖ {[self]}))
   else raise KeyError);;
  u ← get_username self;
  srem_online u;;
  update_clients_list self.

Definition check_origin (self : conn) (origin : pystr) : bool := true.

(** The body of the loop of [redis_listener] for one bus message. *)
Definition listener_step (message : bus_message) : M unit :=
  if PyStr.eqb (msg_type message) (lit "message") then
    data ← loads (msg_data message);
    cs ← gets (fun w => elements (clients w));
    for_each cs (fun client => write_message client (json_dumps data))
  else ret tt.

(** [redis_listener] on the messages [pubsub.listen()] yields, in order;
    an exception leaves the loop and the coroutine. *)
Definition redis_listener (messages : list bus_message) : M unit :=
  for_each messages listener_step.

(** [loop.run_until_complete(redis_listener())] raises what the
    coroutine raises: nothing restarts the listener. *)
Definition start_redis_listener (messages : list bus_message) : M unit :=
  redis_listener messages.

End Handlers.

End Chat.

(** * Concrete worlds *)

Module Scenario.
Import Chat.

(** A float printer for running the model on texts without a float: it
    prints the lexeme as it was read. *)
#[export] Instance float_text_lexeme : PyFloat := fun lx => lx.

Definition alice : pystr := lit "alice".
Definition bob : pystr := lit "bob".

(** One connection, of alice. *)
Definition w_alice : world :=
  mkWorld {[1%nat]} {[1%nat := alice]} {[alice]} [] ∅ [].

(** Two connections opened under the same user name. *)
Definition w_shared : world :=
  mkWorld {[1%nat; 2%nat]} {[1%nat := alice; 2%nat := alice]} {[alice]} [] ∅ [].

(** Two registered connections; the channel of connection 2 is closing and
    its [on_close] has not run yet; the channel of connection 1 is open. *)
Definition w_stale : world :=
  mkWorld {[1%nat; 2%nat]} {[1%nat := alice; 2%nat := bob]} {[alice; bob]}
          [] {[2%nat]} [].

(** Two registered connections; the channel of connection 1 is closing and
    its [on_close] has not run yet; the channel of connection 2 is open. *)
Definition w_late : world :=
  mkWorld {[1%nat; 2%nat]} {[1%nat := alice; 2%nat := bob]} {[alice; bob]}
          [] {[1%nat]} [].

Definition carol : pystr := lit "carol".

(** A text with a quotation mark, a character outside ASCII, a character
    outside the Basic Multilingual Plane and a line feed. *)
Definition tricky : pystr := [104; 34; 233; 128512; 10]%N.

End Scenario.

(** * Predicates on texts, bus messages and worlds *)

Module Props.
Import Chat.

(** A Unicode scalar value: a code point that is no surrogate.  A [str]
    decoded from UTF-8, as Tornado hands a text frame or a request argument
    to the handler, holds nothing else. *)
Definition is_scalar (c : N) : bool :=
  (c <? 55296) || ((57343 <? c) && (c <? 1114112)).

Definition well_formed (s : pystr) : Prop := forallb is_scalar s = true.

(** The test of [redis_listener] on a bus message: [message["type"] ==
    "message"]. *)
Definition is_chat_message (m : bus_message) : bool :=
  PyStr.eqb (msg_type m) (lit "message").

(** A character of [0-9a-f]. *)
Definition is_hex_lower (c : N) : bool :=
  ((48 <=? c) && (c <=? 57)) || ((97 <=? c) && (c <=? 102)).

(** The presence set is exactly the set of the user names of the registered
    connections. *)
Definition presence_exact (w : world) : Prop :=
  (forall c, c ∈ clients w ->
             exists u, username w !! c = Some u /\ u ∈ online_clients w)
  /\ (forall u, u ∈ online_clients w ->
                exists c, c ∈ clients w /\ username w !! c = Some u).

(** No two registered connections have the same user name. *)
Definition distinct_names (w : world) : Prop :=
  forall c1 c2 u,
    c1 ∈ clients w -> c2 ∈ clients w ->
    username w !! c1 = Some u -> username w !! c2 = Some u -> c1 = c2.

(** The frames of a delivery of each of [payloads], in order, to each of
    [cs]. *)
Definition deliveries (cs : list conn) (payloads : list pystr)
  : list (conn * pystr) :=
  flat_map (fun p => List.map (fun c => (c, p)) cs) payloads.

(** [d.get(key)] on a decoded object. *)
Fixpoint dict_get (key : pystr) (d : list (pystr * json)) : option json :=
  match d with
  | [] => None
  | (k, v) :: d' => if PyStr.eqb k key then Some v else dict_get key d'
  end.

(** What a client that parses a frame reads as its type: the string under
    [type] when the text is a JSON object that has one. *)
Definition frame_type (text : pystr) : option pystr :=
  match json_loads text with
  | POk (JObj items) =>
      match dict_get (lit "type") items with
      | Some (JStr t) => Some t
      | _ => None
      end
  | _ => None
  end.

(** A frame that carries a welcome envelope: an object of type [welcome]. *)
Definition is_welcome_frame (fr : conn * pystr) : bool :=
  match frame_type fr.2 with
  | Some t => PyStr.eqb t (lit "welcome")
  | None => false
  end.

(** One of the connections [cs] has a closed channel in [w]. *)
Definition some_closed (cs : gset conn) (w : world) : Prop :=
  exists c, c ∈ cs /\ c ∈ closed w.

(** The world after [on_close] has removed the connection from the registry
    and its user name from the presence set. *)
Definition unregistered (self : conn) (name : pystr) (w : world) : world :=
  set_online (fun s => s ∖ {[name]}) (set_clients (fun s => s ∖ {[self]}) w).

Section Texts.
Context `{PyFloat}.

(** The texts a connection of user [u] publishes for [texts]. *)
Definition envelopes_of (u : pystr) (texts : list pystr) : list pystr :=
  List.map (fun m => json_dumps (message_envelope u m)) texts.

End Texts.

End Props.

(** * Checking by cases *)

Module Cases.

(** [P] on the [count] numbers from [start] on. *)
Fixpoint check_from (P : N -> bool) (start : N) (count : nat) : bool :=
  match count with
  | O => true
  | S c => P start && check_from P (N.succ start) c
  end.

(** Decoding the four digits of [hex4] gives the number back. *)
Definition hex4_decodes (n : N) : bool :=
  match hex4 n with
  | [a; b; c; d] =>
      match decode_hex4 a b c d with
      | Some m => m =? n
      | None => false
      end
  | _ => false
  end.

End Cases.
Import Cases.

(** * Facts about the JSON text *)

Module JsonFacts.

#[local] Arguments decode_hex4 : simpl never.
#[local] Arguments is_high_surrogate : simpl never.
#[local] Arguments is_low_surrogate : simpl never.
#[local] Arguments join_surrogates : simpl never.
#[local] Arguments cons_char : simpl never.
#[local] Arguments hex4 : simpl never.

Lemma check_from_spec (P : N -> bool) (count : nat) :
  forall start, check_from P start count = true ->
  forall n, start <= n -> n < start + N.of_nat count -> P n = true.
Proof.
  induction count as [|c IH]; intros start Hall n Hlo Hhi.
  - lia.
  - simpl in Hall. apply andb_true_iff in Hall as [Hhead Htail].
    destruct (N.eq_dec n start) as [->|Hne]; [exact Hhead|].
    apply (IH (N.succ start)); [exact Htail | lia | lia].
Qed.

(** A boolean property checked on every number below [k] holds below [k]. *)
Lemma below_by_cases (P : N -> bool) (k : N) :
  check_from P 0 (N.to_nat k) = true ->
  forall n, n < k -> P n = true.
Proof.
  intros Hall n Hn.
  apply (check_from_spec P (N.to_nat k) 0 Hall); lia.
Qed.

Lemma hex4_shape (n : N) :
  n < 65536 ->
  exists a b c d, hex4 n = [a; b; c; d] /\ decode_hex4 a b c d = Some n.
Proof.
  intros Hn.
  assert (Hd : hex4_decodes n = true).
  { apply (below_by_cases hex4_decodes 65536); [vm_compute; reflexivity | exact Hn]. }
  unfold hex4_decodes in Hd.
  destruct (hex4 n) as [|a [|b [|c [|d [|? ?]]]]]; try discriminate.
  destruct (decode_hex4 a b c d) as [m|] eqn:Hm; try discriminate.
  apply N.eqb_eq in Hd. subst m. eauto 6.
Qed.

(** *** Surrogate pairs *)

Lemma lor_high_base (a : N) : a < 1024 -> N.lor 55296 a = 55296 + a.
Proof.
  intros Ha.
  apply N.eqb_eq.
  apply (below_by_cases (fun a => N.lor 55296 a =? 55296 + a) 1024);
    [vm_compute; reflexivity | exact Ha].
Qed.

Lemma lor_low_base (b : N) : b < 1024 -> N.lor 56320 b = 56320 + b.
Proof.
  intros Hb.
  apply N.eqb_eq.
  apply (below_by_cases (fun b => N.lor 56320 b =? 56320 + b) 1024);
    [vm_compute; reflexivity | exact Hb].
Qed.

Lemma lor_shifted (a b : N) :
  b < 1024 -> N.lor (N.shiftl a 10) b = a * 1024 + b.
Proof.
  intros Hb.
  assert (Hdisj : N.land (N.shiftl a 10) b = 0).
  { apply N.bits_inj. intros i. rewrite N.land_spec, N.bits_0.
    destruct (N.lt_ge_cases i 10) as [Hi|Hi].
    - rewrite N.shiftl_spec_low by exact Hi. reflexivity.
    - replace b with (b mod 2 ^ 10) by (apply N.mod_small; exact Hb).
      rewrite N.mod_pow2_bits_high by exact Hi.
      apply andb_false_r. }
  rewrite <- N.lxor_lor by exact Hdisj.
  rewrite <- N.add_nocarry_lxor by exact Hdisj.
  rewrite N.shiftl_mul_pow2. reflexivity.
Qed.

Lemma join_surrogates_value (a b : N) :
  a < 1024 -> b < 1024 ->
  join_surrogates (55296 + a) (56320 + b) = 65536 + (a * 1024 + b).
Proof.
  intros Ha Hb. unfold join_surrogates.
  replace (55296 + a - 55296) with a by lia.
  replace (56320 + b - 56320) with b by lia.
  rewrite lor_shifted by exact Hb. reflexivity.
Qed.

Lemma high_surrogate_range (a : N) :
  a < 1024 -> is_high_surrogate (55296 + a) = true
              /\ is_low_surrogate (55296 + a) = false.
Proof.
  intros Ha. unfold is_high_surrogate, is_low_surrogate.
  split.
  - apply andb_true_iff; split; apply N.leb_le; lia.
  - apply andb_false_iff; left; apply N.leb_gt; lia.
Qed.

Lemma low_surrogate_range (b : N) :
  b < 1024 -> is_low_surrogate (56320 + b) = true
              /\ is_high_surrogate (56320 + b) = false.
Proof.
  intros Hb. unfold is_high_surrogate, is_low_surrogate.
  split.
  - apply andb_true_iff; split; apply N.leb_le; lia.
  - apply andb_false_iff; right; apply N.leb_gt; lia.
Qed.

(** The escape of a code point outside the basic plane is the pair of
    escapes of its two surrogates. *)
Lemma escape_char_astral (c : N) :
  65536 <= c ->
  escape_char c
  = (92 :: 117 :: hex4 (55296 + (c - 65536) / 1024 mod 1024))
      ++ (92 :: 117 :: hex4 (56320 + (c - 65536) mod 1024)).
Proof.
  intros Hc.
  assert (H1024 : 1024 <> 0) by lia.
  unfold escape_char.
  repeat match goal with
         | |- context [?x =? ?k] =>
             replace (x =? k) with false by (symmetry; apply N.eqb_neq; lia)
         end.
  replace ((32 <=? c) && (c <=? 126)) with false
    by (symmetry; apply andb_false_iff; right; apply N.leb_gt; lia).
  replace (c <? 65536) with false by (symmetry; apply N.ltb_ge; lia).
  cbv zeta.
  change 1023 with (N.ones 10).
  rewrite !N.land_ones, N.shiftr_div_pow2.
  change (2 ^ 10) with 1024.
  rewrite lor_high_base by (apply N.mod_lt; exact H1024).
  rewrite lor_low_base by (apply N.mod_lt; exact H1024).
  reflexivity.
Qed.

Lemma escape_char_joined (a b : N) :
  a < 1024 -> b < 1024 ->
  escape_char (join_surrogates (55296 + a) (56320 + b))
  = (92 :: 117 :: hex4 (55296 + a)) ++ (92 :: 117 :: hex4 (56320 + b)).
Proof.
  intros Ha Hb.
  rewrite join_surrogates_value by assumption.
  rewrite escape_char_astral by lia.
  replace (65536 + (a * 1024 + b) - 65536) with (a * 1024 + b) by lia.
  assert (Hq : (a * 1024 + b) / 1024 = a)
    by (symmetry; apply (N.div_unique _ _ _ b); lia).
  assert (Hr : (a * 1024 + b) mod 1024 = b)
    by (symmetry; apply (N.mod_unique _ _ a); lia).
  rewrite Hq, Hr, (N.mod_small a) by exact Ha.
  reflexivity.
Qed.

(** *** The shapes of an escaped character *)

Lemma escape_char_cases (c : N) :
  (exists e, escape_char c = [92; e] /\ e <> 117 /\ unescape e = Some c)
  \/ (escape_char c = [c] /\ c <> 34 /\ c <> 92 /\ 32 <= c)
  \/ (c < 65536 /\ escape_char c = 92 :: 117 :: hex4 c)
  \/ (exists a b, a < 1024 /\ b < 1024 /\
        escape_char c = (92 :: 117 :: hex4 (55296 + a))
                          ++ (92 :: 117 :: hex4 (56320 + b))).
Proof.
  destruct (N.lt_ge_cases c 65536) as [Hlt|Hge].
  - unfold escape_char.
    destruct (N.eqb_spec c 34) as [->|H34].
    { left. exists 34. repeat split; lia. }
    destruct (N.eqb_spec c 92) as [->|H92].
    { left. exists 92. repeat split; lia. }
    destruct (N.eqb_spec c 8) as [->|H8].
    { left. exists 98. repeat split; lia. }
    destruct (N.eqb_spec c 12) as [->|H12].
    { left. exists 102. repeat split; lia. }
    destruct (N.eqb_spec c 10) as [->|H10].
    { left. exists 110. repeat split; lia. }
    destruct (N.eqb_spec c 13) as [->|H13].
    { left. exists 114. repeat split; lia. }
    destruct (N.eqb_spec c 9) as [->|H9].
    { left. exists 116. repeat split; lia. }
    destruct ((32 <=? c) && (c <=? 126)) eqn:Hprint.
    { right. left. apply andb_true_iff in Hprint as [Hlo _].
      apply N.leb_le in Hlo. repeat split; assumption. }
    right. right. left.
    replace (c <? 65536) with true by (symmetry; apply N.ltb_lt; exact Hlt).
    split; [exact Hlt | reflexivity].
  - right. right. right.
    exists ((c - 65536) / 1024 mod 1024), ((c - 65536) mod 1024).
    split; [apply N.mod_lt; lia|].
    split; [apply N.mod_lt; lia|].
    apply escape_char_astral. exact Hge.
Qed.

(** *** One step of [scanstring] on each shape *)

Lemma scan_short (e c : N) (k : pystr) :
  e <> 117 -> unescape e = Some c ->
  scanstring (92 :: e :: k) = cons_char c (scanstring k).
Proof.
  intros He Hun. simpl.
  replace (e =? 117) with false by (symmetry; apply N.eqb_neq; exact He).
  rewrite Hun. reflexivity.
Qed.

Lemma scan_plain (c : N) (k : pystr) :
  c <> 34 -> c <> 92 -> 32 <= c ->
  scanstring (c :: k) = cons_char c (scanstring k).
Proof.
  intros H34 H92 H32. simpl.
  replace (c =? 34) with false by (symmetry; apply N.eqb_neq; exact H34).
  replace (c =? 92) with false by (symmetry; apply N.eqb_neq; exact H92).
  replace (c <? 32) with false by (symmetry; apply N.ltb_ge; exact H32).
  reflexivity.
Qed.

Section UnicodeEscape.
Variables (h1 h2 h3 h4 u : N).
Hypothesis Hdec : decode_hex4 h1 h2 h3 h4 = Some u.

Lemma scan_u_not_high (k : pystr) :
  is_high_surrogate u = false ->
  scanstring (92 :: 117 :: h1 :: h2 :: h3 :: h4 :: k)
  = cons_char u (scanstring k).
Proof. intros Hhi. simpl. rewrite Hdec, Hhi. reflexivity. Qed.

Lemma scan_u_high_then_other (x : N) (k : pystr) :
  x <> 92 ->
  scanstring (92 :: 117 :: h1 :: h2 :: h3 :: h4 :: x :: k)
  = cons_char u (scanstring (x :: k)).
Proof.
  intros Hx. cbn [scanstring N.eqb Pos.eqb]. rewrite Hdec.
  destruct (is_high_surrogate u); [|reflexivity].
  destruct k as [|y k']; [reflexivity|].
  replace (x =? 92) with false by (symmetry; apply N.eqb_neq; exact Hx).
  reflexivity.
Qed.

Lemma scan_u_high_then_short (e : N) (k : pystr) :
  e <> 117 ->
  scanstring (92 :: 117 :: h1 :: h2 :: h3 :: h4 :: 92 :: e :: k)
  = cons_char u (scanstring (92 :: e :: k)).
Proof.
  intros He. cbn [scanstring N.eqb Pos.eqb]. rewrite Hdec.
  destruct (is_high_surrogate u); [|reflexivity].
  replace (e =? 117) with false by (symmetry; apply N.eqb_neq; exact He).
  reflexivity.
Qed.

Lemma scan_u_then_u (g1 g2 g3 g4 u2 : N) (k : pystr) :
  decode_hex4 g1 g2 g3 g4 = Some u2 ->
  scanstring (92 :: 117 :: h1 :: h2 :: h3 :: h4
                :: 92 :: 117 :: g1 :: g2 :: g3 :: g4 :: k)
  = if is_high_surrogate u && is_low_surrogate u2
    then cons_char (join_surrogates u u2) (scanstring k)
    else cons_char u
           (scanstring (92 :: 117 :: g1 :: g2 :: g3 :: g4 :: k)).
Proof.
  intros Hdec2. cbn [scanstring N.eqb Pos.eqb andb]. rewrite Hdec, Hdec2.
  destruct (is_high_surrogate u), (is_low_surrogate u2); reflexivity.
Qed.
End UnicodeEscape.

(** Replace the literals of the source by their code points. *)
Ltac eval_lits :=
  repeat match goal with
         | |- context [lit ?s] =>
             let v := eval vm_compute in (lit s) in change (lit s) with v
         | H : context [lit ?s] |- _ =>
             let v := eval vm_compute in (lit s) in change (lit s) with v in H
         end.

(** *** Scanning an encoded string *)

Lemma cons_char_some (x : N) (k str rest : pystr) :
  scanstring k = Some (str, rest) ->
  cons_char x (scanstring k) = Some (x :: str, rest).
Proof. intros ->. reflexivity. Qed.

Lemma escape_body_cons (c : N) (t : pystr) :
  escape_body (c :: t) = escape_char c ++ escape_body t.
Proof. reflexivity. Qed.

Lemma escaped_text_cons (c : N) (t rest : pystr) :
  escape_body (c :: t) ++ 34 :: rest
  = escape_char c ++ (escape_body t ++ 34 :: rest).
Proof. rewrite escape_body_cons, <- app_assoc. reflexivity. Qed.

(** The text [escape_body s] followed by a quote scans to a string whose
    escape is the same text: the scanner only merges a high and a low
    surrogate that stand next to each other, and the encoder splits the
    merged code point into the same two escapes. *)
Lemma scanstring_escape_bounded (n : nat) :
  forall (s rest : pystr),
    (length s <= n)%nat ->
    exists s', scanstring (escape_body s ++ 34 :: rest) = Some (s', rest)
               /\ escape_body s' = escape_body s.
Proof.
  induction n as [|n IH]; intros s rest Hlen.
  - destruct s; [|simpl in Hlen; lia].
    exists []. split; reflexivity.
  - destruct s as [|c t].
    { exists []. split; reflexivity. }
    simpl in Hlen.
    destruct (IH t rest ltac:(lia)) as (st & Hst & Hesc).
    rewrite escaped_text_cons.
    set (k := escape_body t ++ 34 :: rest) in *.
    (* the common ending: the scanner yields [c] and goes on with [k] *)
    assert (Hkeep : forall txt,
               scanstring txt = cons_char c (scanstring k) ->
               exists s', scanstring txt = Some (s', rest)
                          /\ escape_body s' = escape_body (c :: t)).
    { intros txt Htxt. exists (c :: st). split.
      - rewrite Htxt. apply cons_char_some. exact Hst.
      - rewrite !escape_body_cons, Hesc. reflexivity. }
    destruct (escape_char_cases c)
      as [(e & Hc & He & Hun) | [(Hc & H34 & H92 & H32)
         | [(Hlt & Hc) | (a & b & Ha & Hb & Hc)]]].
    + rewrite Hc. apply Hkeep. apply scan_short; assumption.
    + rewrite Hc. apply Hkeep. apply scan_plain; assumption.
    + rewrite Hc.
      destruct (hex4_shape c Hlt) as (h1 & h2 & h3 & h4 & Hhex & Hdec).
      rewrite Hhex.
      destruct (is_high_surrogate c) eqn:Hhigh.
      2:{ apply Hkeep. apply (scan_u_not_high _ _ _ _ _ Hdec). exact Hhigh. }
      destruct t as [|d t2].
      { apply Hkeep. apply (scan_u_high_then_other _ _ _ _ _ Hdec). lia. }
      subst k. rewrite escaped_text_cons in *.
      set (k2 := escape_body t2 ++ 34 :: rest) in *.
      destruct (escape_char_cases d)
        as [(e & Hd & He & Hun) | [(Hd & H34 & H92 & H32)
           | [(Hdlt & Hd) | (a & b & Ha & Hb & Hd)]]].
      * rewrite Hd in *. apply Hkeep.
        apply (scan_u_high_then_short _ _ _ _ _ Hdec). exact He.
      * rewrite Hd in *. apply Hkeep.
        apply (scan_u_high_then_other _ _ _ _ _ Hdec). exact H92.
      * rewrite Hd in *.
        destruct (hex4_shape d Hdlt) as (g1 & g2 & g3 & g4 & Hhex2 & Hdec2).
        rewrite Hhex2 in *.
        destruct (is_low_surrogate d) eqn:Hlow.
        2:{ apply Hkeep. cbn [app].
            rewrite (scan_u_then_u _ _ _ _ _ Hdec _ _ _ _ _ _ Hdec2).
            rewrite Hlow, andb_false_r. reflexivity. }
        (* the pair is merged *)
        destruct (IH t2 rest ltac:(simpl in Hlen; lia)) as (st2 & Hst2 & Hesc2).
        fold k2 in Hst2.
        exists (join_surrogates c d :: st2). split.
        -- cbn [app].
           rewrite (scan_u_then_u _ _ _ _ _ Hdec _ _ _ _ _ _ Hdec2).
           rewrite Hhigh, Hlow. cbn [andb].
           apply cons_char_some. exact Hst2.
        -- rewrite !escape_body_cons, Hesc2, Hc, Hd, app_assoc.
           f_equal. rewrite <- Hhex2.
           unfold is_high_surrogate in Hhigh. unfold is_low_surrogate in Hlow.
           apply andb_true_iff in Hhigh as [Hh1 Hh2].
           apply andb_true_iff in Hlow as [Hl1 Hl2].
           apply N.leb_le in Hh1, Hh2, Hl1, Hl2.
           replace c with (55296 + (c - 55296)) by lia.
           replace d with (56320 + (d - 56320)) by lia.
           apply escape_char_joined; lia.
      * rewrite Hd in *.
        destruct (hex4_shape (55296 + a) ltac:(lia))
          as (g1 & g2 & g3 & g4 & Hhex2 & Hdec2).
        rewrite Hhex2 in *.
        apply Hkeep. cbn [app].
        rewrite (scan_u_then_u _ _ _ _ _ Hdec _ _ _ _ _ _ Hdec2).
        rewrite (proj2 (high_surrogate_range a Ha)), andb_false_r.
        reflexivity.
    + rewrite Hc.
      destruct (hex4_shape (55296 + a) ltac:(lia))
        as (h1 & h2 & h3 & h4 & Hhex & Hdec).
      destruct (hex4_shape (56320 + b) ltac:(lia))
        as (g1 & g2 & g3 & g4 & Hhex2 & Hdec2).
      exists (join_surrogates (55296 + a) (56320 + b) :: st). split.
      * rewrite Hhex, Hhex2. cbn [app].
        rewrite (scan_u_then_u _ _ _ _ _ Hdec _ _ _ _ _ _ Hdec2).
        rewrite (proj1 (high_surrogate_range a Ha)).
        rewrite (proj1 (low_surrogate_range b Hb)). cbn [andb].
        apply cons_char_some. exact Hst.
      * rewrite !escape_body_cons, Hesc, Hc.
        f_equal. apply escape_char_joined; assumption.
Qed.

Lemma scanstring_escape (s rest : pystr) :
  exists s', scanstring (escape_body s ++ 34 :: rest) = Some (s', rest)
             /\ escape_body s' = escape_body s.
Proof. apply (scanstring_escape_bounded (length s)). lia. Qed.

(** *** The budget of the scanner is enough *)

Lemma cons_char_inv (c : N) (o : option (pystr * pystr)) (x r : pystr) :
  cons_char c o = Some (x, r) -> exists x', o = Some (x', r).
Proof.
  destruct o as [[x' r']|]; simpl; [|discriminate].
  intros [= <- <-]. eauto.
Qed.

Lemma scanstring_length_bounded (n : nat) :
  forall s x r, (length s <= n)%nat ->
                scanstring s = Some (x, r) -> (length r < length s)%nat.
Proof.
  induction n as [|n IH]; intros s x r Hlen Hs.
  - destruct s; [discriminate | simpl in Hlen; lia].
  - destruct s as [|c s1]; [discriminate|].
    simpl in Hs, Hlen.
    repeat
      match type of Hs with
      | (if ?b then _ else _) = _ => destruct b
      | match ?l with [] => _ | _ :: _ => _ end = _ => destruct l
      | match ?o with Some _ => _ | None => _ end = _ => destruct o
      | None = _ => discriminate Hs
      | Some _ = Some _ => injection Hs as <- <-; simpl; lia
      | cons_char _ (scanstring ?k) = _ =>
          apply cons_char_inv in Hs as [x' Hs];
          apply IH in Hs; simpl in *; lia
      end.
Qed.

Lemma scanstring_length (s x r : pystr) :
  scanstring s = Some (x, r) -> (length r < length s)%nat.
Proof. apply (scanstring_length_bounded (length s)). lia. Qed.

Lemma skip_ws_length (s : pystr) : (length (skip_ws s) <= length s)%nat.
Proof.
  induction s as [|c r IH]; simpl; [lia|].
  destruct (is_ws c); simpl; lia.
Qed.

Lemma skip_ws_cons_length (s r : pystr) (c : N) :
  skip_ws s = c :: r -> (length r < length s)%nat.
Proof.
  intros Heq. pose proof (skip_ws_length s) as Hle.
  rewrite Heq in Hle. simpl in Hle. lia.
Qed.

Lemma strip_prefix_length (p s r : pystr) :
  strip_prefix p s = Some r -> (length r <= length s)%nat.
Proof.
  revert s. induction p as [|x p IH]; intros s Hs; simpl in Hs.
  - injection Hs as ->. lia.
  - destruct s as [|y s']; [discriminate|].
    destruct (x =? y); [|discriminate].
    apply IH in Hs. simpl. lia.
Qed.

Lemma span_digits_length (s d r : pystr) :
  span_digits s = (d, r) -> (length r <= length s)%nat.
Proof.
  revert d r. induction s as [|c s IH]; intros d r Hs; simpl in Hs.
  - injection Hs as <- <-. simpl. lia.
  - destruct (is_digit c).
    + destruct (span_digits s) as [d' r'] eqn:Hrec.
      injection Hs as <- <-. specialize (IH _ _ eq_refl). simpl. lia.
    + injection Hs as <- <-. lia.
Qed.

Lemma match_integer_length (s lx r : pystr) :
  match_integer s = Some (lx, r) -> (length r <= length s)%nat.
Proof.
  unfold match_integer. intros Hs.
  repeat case_match; simplify_eq; simpl;
    repeat match goal with
           | Hd : span_digits _ = _ |- _ => apply span_digits_length in Hd
           end; simpl in *; lia.
Qed.

Lemma match_frac_length (s f r : pystr) :
  match_frac s = (f, r) -> (length r <= length s)%nat.
Proof.
  unfold match_frac. intros Hs.
  repeat case_match; simplify_eq; simpl;
    repeat match goal with
           | Hd : span_digits _ = _ |- _ => apply span_digits_length in Hd
           end; simpl in *; lia.
Qed.

Lemma match_exp_length (s e r : pystr) :
  match_exp s = (e, r) -> (length r <= length s)%nat.
Proof.
  unfold match_exp. intros Hs.
  repeat case_match; simplify_eq; simpl;
    repeat match goal with
           | Hd : span_digits _ = _ |- _ => apply span_digits_length in Hd
           end; simpl in *; lia.
Qed.

Lemma scan_number_length (s r : pystr) (v : json) :
  scan_number s = Some (v, r) -> (length r <= length s)%nat.
Proof.
  unfold scan_number. intros Hs.
  destruct (match_integer s) as [[lx r0]|] eqn:Hint; [|discriminate].
  destruct (match_frac r0) as [f r1] eqn:Hfrac.
  destruct (match_exp r1) as [e r2] eqn:Hexp.
  apply match_integer_length in Hint.
  apply match_frac_length in Hfrac.
  apply match_exp_length in Hexp.
  assert (r = r2) as -> by (repeat case_match; simplify_eq; reflexivity).
  lia.
Qed.

Lemma scan_word_length (w : string) (v0 v : json) (s r : pystr) :
  scan_word w v0 s = Some (v, r) -> (length r <= length s)%nat.
Proof.
  unfold scan_word. intros Hs.
  destruct (strip_prefix (lit w) s) as [r'|] eqn:Hp; [|discriminate].
  injection Hs as _ <-. eapply strip_prefix_length. exact Hp.
Qed.

Lemma first_some_inv {A} (a b : option A) (x : A) :
  first_some a b = Some x -> a = Some x \/ b = Some x.
Proof. destruct a; simpl; auto. Qed.

Lemma scan_literal_length (s r : pystr) (v : json) :
  scan_literal s = Some (v, r) -> (length r <= length s)%nat.
Proof.
  unfold scan_literal. intros Hs.
  repeat (apply first_some_inv in Hs as [Hs|Hs]);
    first [ apply scan_word_length in Hs; exact Hs
          | apply scan_number_length in Hs; exact Hs ].
Qed.

Ltac note_skips :=
  repeat match goal with
         | H : context [skip_ws ?x] |- _ =>
             lazymatch goal with
             | _ : (length (skip_ws x) <= length x)%nat |- _ => fail
             | _ => pose proof (skip_ws_length x)
             end
         end.

Ltac note_lengths :=
  repeat match goal with
         | H : scanstring _ = Some _ |- _ => apply scanstring_length in H
         | H : skip_ws _ = _ :: _ |- _ => apply skip_ws_cons_length in H
         | H : scan_literal _ = Some _ |- _ => apply scan_literal_length in H
         end.

(** What a scan leaves is no longer than what it was given. *)
Lemma scan_lengths (f : nat) :
  (forall s v r, scan_once f s = POk (v, r) -> (length r <= length s)%nat)
  /\ (forall s acc v r,
         parse_members f s acc = POk (v, r) -> (length r <= length s)%nat)
  /\ (forall s acc v r,
         parse_elems f s acc = POk (v, r) -> (length r <= length s)%nat).
Proof.
  induction f as [|f (IH1 & IH2 & IH3)].
  { repeat split; intros; discriminate. }
  repeat split.
  - intros s v r Hs. simpl in Hs.
    repeat case_match; simplify_eq; note_skips;
      repeat match goal with
             | H : parse_members f _ _ = POk _ |- _ => apply IH2 in H
             | H : parse_elems f _ _ = POk _ |- _ => apply IH3 in H
             end;
      note_lengths; simpl in *; lia.
  - intros s acc v r Hs. simpl in Hs.
    repeat case_match; simplify_eq; note_skips;
      repeat match goal with
             | H : scan_once f _ = POk _ |- _ => apply IH1 in H
             | H : parse_members f _ _ = POk _ |- _ => apply IH2 in H
             end;
      note_lengths; simpl in *; lia.
  - intros s acc v r Hs. simpl in Hs.
    repeat case_match; simplify_eq; note_skips;
      repeat match goal with
             | H : scan_once f _ = POk _ |- _ => apply IH1 in H
             | H : parse_elems f _ _ = POk _ |- _ => apply IH3 in H
             end;
      note_lengths; simpl in *; lia.
Qed.

(** Two units of budget for every character, and one or two more, are
    never used up. *)
Lemma scan_budget (f : nat) :
  (forall s, (2 * length s + 1 <= f)%nat -> scan_once f s <> PFuel)
  /\ (forall s acc,
         (2 * length s + 1 <= f)%nat -> parse_members f s acc <> PFuel)
  /\ (forall s acc,
         (2 * length s + 2 <= f)%nat -> parse_elems f s acc <> PFuel).
Proof.
  induction f as [|f (IH1 & IH2 & IH3)].
  { repeat split; intros; lia. }
  destruct (scan_lengths f) as (L1 & L2 & L3).
  repeat split.
  - intros s Hf. simpl.
    repeat case_match; simplify_eq; try discriminate; note_skips.
    + apply IH2. note_lengths. simpl in *. lia.
    + apply IH3. note_lengths. simpl in *. lia.
  - intros s acc Hf. simpl.
    repeat case_match; simplify_eq; try discriminate; note_skips.
    + apply IH2.
      repeat match goal with
             | H : scan_once f _ = POk _ |- _ => apply L1 in H
             end.
      note_lengths. simpl in *. lia.
    + exfalso.
      match goal with
      | H : scan_once f _ = PFuel |- _ => revert H; apply IH1
      end.
      note_lengths. simpl in *. lia.
  - intros s acc Hf. simpl.
    repeat case_match; simplify_eq; try discriminate; note_skips.
    + match goal with
      | |- parse_elems f (skip_ws ?x) _ <> _ => pose proof (skip_ws_length x)
      end.
      apply IH3.
      repeat match goal with
             | H : scan_once f _ = POk _ |- _ => apply L1 in H
             end.
      note_lengths. simpl in *. lia.
    + exfalso.
      match goal with
      | H : scan_once f _ = PFuel |- _ => revert H; apply IH1
      end.
      lia.
Qed.

(** [json_loads] returns a value or raises: its budget is never used up. *)
Lemma json_loads_budget (s : pystr) : json_loads s <> PFuel.
Proof.
  unfold json_loads.
  destruct (scan_once (2 * length s + 2) (skip_ws s)) as [[v r]| |] eqn:Hscan.
  - destruct (skip_ws r); discriminate.
  - discriminate.
  - exfalso. revert Hscan.
    apply (proj1 (scan_budget (2 * length s + 2))).
    pose proof (skip_ws_length s). lia.
Qed.

End JsonFacts.

(** * Facts about the handlers and the listener *)

Module ChatFacts.
Import Chat JsonFacts.

#[local] Arguments escape_body : simpl never.
#[local] Arguments scanstring : simpl nomatch.

(** Unfold the sequencing of statements. *)
Ltac run :=
  cbv [mbind M_bind bind mret M_ret ret gets modify raise
       sadd_online srem_online smembers_online publish get_username].

Lemma world_eq (w w' : world) :
  clients w = clients w' -> username w = username w' ->
  online_clients w = online_clients w' -> published w = published w' ->
  closed w = closed w' -> outbox w = outbox w' -> w = w'.
Proof.
  destruct w, w'; simpl. intros -> -> -> -> -> ->. reflexivity.
Qed.

Lemma sent_to_nil (p : pystr) (w : world) : sent_to [] p w = w.
Proof.
  apply world_eq; try reflexivity.
  simpl. apply app_nil_r.
Qed.

Lemma sent_to_cons (c : conn) (cs : list conn) (p : pystr) (w : world) :
  sent_to cs p (sent_to [c] p w) = sent_to (c :: cs) p w.
Proof.
  apply world_eq; try reflexivity.
  simpl. rewrite <- app_assoc. reflexivity.
Qed.

(** *** Writing to one connection and to a list of them *)

Lemma write_message_open (c : conn) (p : pystr) (w : world) :
  c ∉ closed w -> write_message c p w = (Return tt, sent_to [c] p w).
Proof.
  intros Hopen. unfold write_message.
  destruct (decide (c ∈ closed w)); [contradiction | reflexivity].
Qed.

Lemma write_message_closed (c : conn) (p : pystr) (w : world) :
  c ∈ closed w -> write_message c p w = (Raise WebSocketClosedError, w).
Proof.
  intros Hclosed. unfold write_message.
  destruct (decide (c ∈ closed w)); [reflexivity | contradiction].
Qed.

(** The loop over open channels writes to each of them and returns. *)
Lemma for_each_write_all (p : pystr) (cs : list conn) :
  forall w, (forall c, c ∈ cs -> c ∉ closed w) ->
            for_each cs (fun c => write_message c p) w
            = (Return tt, sent_to cs p w).
Proof.
  induction cs as [|c cs IH]; intros w Hopen.
  - simpl. rewrite sent_to_nil. reflexivity.
  - simpl. run.
    rewrite write_message_open by (apply Hopen; left).
    rewrite IH by (intros c' Hc'; simpl; apply Hopen; right; exact Hc').
    rewrite sent_to_cons. reflexivity.
Qed.

(** The loop stops at the first closed channel: the connections before it
    were written to, those after it are not reached. *)
Lemma for_each_write_fails (p : pystr) (before : list conn) (d : conn)
      (after : list conn) :
  forall w, (forall c, c ∈ before -> c ∉ closed w) -> d ∈ closed w ->
            for_each (before ++ d :: after) (fun c => write_message c p) w
            = (Raise WebSocketClosedError, sent_to before p w).
Proof.
  induction before as [|c cs IH]; intros w Hopen Hclosed.
  - simpl. run. rewrite write_message_closed by exact Hclosed.
    rewrite sent_to_nil. reflexivity.
  - simpl. run.
    rewrite write_message_open by (apply Hopen; left).
    rewrite IH;
      [ | intros c' Hc'; simpl; apply Hopen; right; exact Hc' | exact Hclosed ].
    rewrite sent_to_cons. reflexivity.
Qed.

(** Whatever its outcome, the loop only appends to the outbox. *)
Lemma for_each_write_frame (p : pystr) (cs : list conn) :
  forall w, exists sent,
    snd (for_each cs (fun c => write_message c p) w)
    = set_outbox (fun o => o ++ sent) w
    /\ forall fr, fr ∈ sent -> fr.2 = p /\ fr.1 ∈ cs.
Proof.
  induction cs as [|c cs IH]; intros w.
  - exists []. split; [|intros fr Hfr; inversion Hfr].
    simpl. symmetry. apply (sent_to_nil p).
  - simpl. run. unfold write_message at 1.
    destruct (decide (c ∈ closed w)) as [Hc|Hc].
    + exists []. split; [|intros fr Hfr; inversion Hfr].
      simpl. symmetry. apply (sent_to_nil p).
    + destruct (IH (set_outbox (fun o => o ++ [(c, p)]) w)) as (sent & Heq & Hsent).
      exists ((c, p) :: sent). split.
      * rewrite Heq. apply world_eq; try reflexivity.
        simpl. rewrite <- app_assoc. reflexivity.
      * intros fr Hfr. apply elem_of_cons in Hfr as [->|Hfr].
        -- split; [reflexivity | left].
        -- destruct (Hsent fr Hfr). split; [assumption | right; assumption].
Qed.

Section Envelopes.
Context `{PyFloat}.

(** The text of a chat envelope: three fixed pieces around the escaped
    sender and the escaped message. *)
Lemma message_envelope_text (u m : pystr) :
  json_dumps (message_envelope u m)
  = (123 :: 34 :: lit "type" ++ 34 :: lit ": " ++ 34 :: lit "message"
         ++ 34 :: lit ", " ++ 34 :: lit "data" ++ 34 :: lit ": "
         ++ 123 :: 34 :: lit "sender" ++ 34 :: lit ": " ++ [34])
      ++ escape_body u
      ++ (34 :: lit ", " ++ 34 :: lit "message" ++ 34 :: lit ": " ++ [34])
      ++ escape_body m ++ [34; 125; 125].
Proof.
  cbn. unfold encode_basestring_ascii. cbn.
  repeat (rewrite <- ?app_assoc; cbn). reflexivity.
Qed.

(** Parsing the text of a chat envelope gives a chat envelope with the
    same text. *)
Lemma loads_message_envelope (u m : pystr) :
  exists u' m',
    json_loads (json_dumps (message_envelope u m))
    = POk (message_envelope u' m')
    /\ json_dumps (message_envelope u' m')
       = json_dumps (message_envelope u m).
Proof.
  destruct (scanstring_escape m [125; 125]) as (m' & Hm & Hme).
  destruct (scanstring_escape u
              (lit ", " ++ 34 :: lit "message" ++ 34 :: lit ": "
                 ++ 34 :: escape_body m ++ [34; 125; 125]))
    as (u' & Hu & Hue).
  exists u', m'. split.
  - rewrite message_envelope_text. unfold json_loads.
    match goal with
    | |- context [(2 * length ?t + 2)%nat] =>
        assert (Hfuel : exists f, (2 * length t + 2 = 8 + f)%nat)
    end.
    { match goal with
      | |- exists f, (2 * length ?t + 2 = _)%nat =>
          exists (2 * length t + 2 - 8)%nat
      end.
      cbn [app length lit List.map list_ascii_of_string]. lia. }
    destruct Hfuel as (f & ->).
    eval_lits. cbn [app] in Hu |- *.
    cbn - [escape_body].
    rewrite Hu.
    cbn - [escape_body].
    rewrite Hm.
    reflexivity.
  - rewrite !message_envelope_text, Hue, Hme. reflexivity.
Qed.

End Envelopes.

(** *** The handlers leave the registry and the store as stated *)

Lemma removed_absent {A} `{Countable A} (X : gset A) (x : A) : x ∉ X ∖ {[x]}.
Proof.
  intros Hx. apply elem_of_difference in Hx as [_ Hx].
  apply Hx. apply elem_of_singleton. reflexivity.
Qed.

Lemma removed_other {A} `{Countable A} (X : gset A) (x y : A) :
  x <> y -> y ∈ X -> y ∈ X ∖ {[x]}.
Proof. set_solver. Qed.

Lemma added_present {A} `{Countable A} (X : gset A) (x : A) : x ∈ X ∪ {[x]}.
Proof. set_solver. Qed.

Lemma added_keeps {A} `{Countable A} (X : gset A) (x y : A) : y ∈ X -> y ∈ X ∪ {[x]}.
Proof. set_solver. Qed.

Section Handlers.
Context `{PyFloat}.

Lemma update_clients_list_all_open (self : conn) (w : world) :
  all_open w ->
  update_clients_list self w
  = (Return tt, sent_to (elements (clients w)) (roster_text w) w).
Proof.
  intros Hopen. unfold update_clients_list. run.
  apply for_each_write_all.
  intros c Hc. apply Hopen. apply elem_of_elements. exact Hc.
Qed.

(** Whatever its outcome, the roster broadcast only appends roster
    frames, addressed to registered connections, to the outbox. *)
Lemma update_clients_list_frame (self : conn) (w : world) :
  exists sent,
    snd (update_clients_list self w) = set_outbox (fun o => o ++ sent) w
    /\ forall fr, fr ∈ sent -> fr.2 = roster_text w /\ fr.1 ∈ clients w.
Proof.
  unfold update_clients_list. run.
  destruct (for_each_write_frame (roster_text w) (elements (clients w)) w)
    as (sent & Heq & Hsent).
  exists sent. split; [exact Heq|].
  intros fr Hfr. destruct (Hsent fr Hfr) as [Hp Hc].
  split; [exact Hp | apply elem_of_elements; exact Hc].
Qed.

(** C10: the origin check accepts every origin. *)
Theorem check_origin_accepts_all (self : conn) (origin : pystr) :
  check_origin self origin = true.
Proof. reflexivity. Qed.

(** [on_message] on a connection with a user name: one publication, on
    [chat_channel], of the serialized chat envelope. *)
Lemma on_message_run (w : world) (self : conn) (u message : pystr) :
  username w !! self = Some u ->
  on_message self message w
  = (Return tt,
     set_published
       (fun p => p ++ [(lit "chat_channel",
                        json_dumps (message_envelope u message))]) w).
Proof. intros Hu. unfold on_message. run. rewrite Hu. reflexivity. Qed.

(** C6: on an open connection, [on_message] publishes on [chat_channel]
    exactly one text, the serialized chat envelope with the connection's
    user name and the raw payload, and writes to no connection. *)
Theorem on_message_publishes_envelope
        (w : world) (self : conn) (u message : pystr) :
  username w !! self = Some u ->
  exists w',
    on_message self message w = (Return tt, w')
    /\ published w'
       = published w
           ++ [(lit "chat_channel",
                json_dumps
                  (JObj [(lit "type", JStr (lit "message"));
                         (lit "data", JObj [(lit "sender", JStr u);
                                            (lit "message", JStr message)])]))]
    /\ outbox w' = outbox w
    /\ clients w' = clients w
    /\ online_clients w' = online_clients w.
Proof.
  intros Hu. rewrite (on_message_run w self u message Hu).
  eexists. split; [reflexivity|]. repeat split.
Qed.

(** The user name [open] stores is kept by the rest of [open]. *)
Lemma open_stores_username
      (w : world) (self : conn) (requested : option pystr) (rand : N) :
  username (snd (open self requested rand w)) !! self
  = Some (assigned_username requested rand).
Proof.
  unfold open. run. cbv zeta.
  set (name := assigned_username requested rand).
  set (w1 := set_online _ _).
  assert (Hw1 : username w1 !! self = Some name)
    by (subst w1; simpl; apply lookup_insert_eq).
  destruct (update_clients_list_frame self w1) as (sent & Heq & _).
  destruct (update_clients_list self w1) as [[[]|e] w2] eqn:Hupd;
    simpl in Heq; subst w2; simpl.
  - unfold write_message. simpl.
    destruct (decide (self ∈ closed w)); simpl; exact Hw1.
  - exact Hw1.
Qed.

Lemma hex_fixed_length (width : nat) (n : N) :
  length (hex_fixed width n) = width.
Proof. induction width as [|k IH]; simpl; [reflexivity | rewrite IH; reflexivity]. Qed.

Lemma uuid_prefix_length (i : N) : length (firstn 8 (uuid_str i)) = 8%nat.
Proof.
  unfold uuid_str.
  rewrite take_app_le
    by (rewrite length_take, hex_fixed_length; simpl; lia).
  rewrite take_take, length_take, hex_fixed_length. reflexivity.
Qed.

(** C7: with no requested user name, or an empty one, the name [open]
    assigns is [User-] followed by exactly eight characters, and it is
    not empty; a non-empty requested name is assigned as it is. *)
Theorem open_assigns_username
        (w : world) (self : conn) (requested : option pystr) (rand : N) :
  let assigned := username (snd (open self requested rand w)) !! self in
  match requested with
  | None | Some [] =>
      exists suffix,
        assigned = Some (lit "User-" ++ suffix)
        /\ length suffix = 8%nat
        /\ lit "User-" ++ suffix <> []
  | Some u => assigned = Some u
  end.
Proof.
  cbv zeta. rewrite open_stores_username.
  destruct requested as [[|c u]|]; simpl.
  - exists (firstn 8 (uuid_str (uuid4 rand))).
    split; [reflexivity|]. split; [apply uuid_prefix_length | discriminate].
  - reflexivity.
  - exists (firstn 8 (uuid_str (uuid4 rand))).
    split; [reflexivity|]. split; [apply uuid_prefix_length | discriminate].
Qed.

(** [on_close] on a connection that is not registered raises [KeyError]
    at the removal and changes nothing. *)
Lemma on_close_absent (w : world) (self : conn) :
  self ∉ clients w -> on_close self w = (Raise KeyError, w).
Proof.
  intros Habsent. unfold on_close. run.
  rewrite bool_decide_eq_false_2 by exact Habsent. reflexivity.
Qed.

(** [on_close] on a registered connection with a user name: the
    connection leaves the registry, the name leaves the presence set,
    and roster frames are appended to the outbox. *)
Lemma on_close_present (w : world) (self : conn) (u : pystr) :
  self ∈ clients w -> username w !! self = Some u ->
  exists sent,
    snd (on_close self w)
    = set_outbox (fun o => o ++ sent)
        (set_online (fun s => s ∖ {[u]})
           (set_clients (fun s => s ∖ {[self]}) w)).
Proof.
  intros Hin Hu. unfold on_close. run.
  rewrite bool_decide_eq_true_2 by exact Hin. simpl. rewrite Hu.
  set (w1 := set_online _ _).
  destruct (update_clients_list_frame self w1) as (sent & Heq & _).
  exists sent. exact Heq.
Qed.

Lemma on_close_unregisters (w : world) (self : conn) :
  self ∉ clients (snd (on_close self w)).
Proof.
  destruct (decide (self ∈ clients w)) as [Hin|Hout].
  - unfold on_close. run.
    rewrite bool_decide_eq_true_2 by exact Hin. simpl.
    destruct (username w !! self) as [u|] eqn:Hu.
    + set (w1 := set_online _ _).
      destruct (update_clients_list_frame self w1) as (sent & Heq & _).
      rewrite Heq. simpl. apply removed_absent.
    + simpl. apply removed_absent.
  - rewrite on_close_absent by exact Hout. exact Hout.
Qed.

(** C2, as amended: a second [on_close] on the same connection raises
    [KeyError] at the registry removal, before any other effect: it
    changes neither the registry nor the presence set and writes
    nothing. *)
Theorem second_close_raises_key_error (w : world) (self : conn) :
  let w1 := snd (on_close self w) in
  on_close self w1 = (Raise KeyError, w1).
Proof. cbv zeta. apply on_close_absent. apply on_close_unregisters. Qed.

(** C4: when two registered connections share a user name and one of
    them closes, the name leaves the presence set although the other
    connection stays registered under it. *)
Theorem close_drops_shared_username
        (w : world) (c1 c2 : conn) (u : pystr) :
  c1 <> c2 ->
  c1 ∈ clients w -> c2 ∈ clients w ->
  username w !! c1 = Some u -> username w !! c2 = Some u ->
  let w' := snd (on_close c1 w) in
  (u ∉ online_clients w')
  /\ (c2 ∈ clients w')
  /\ username w' !! c2 = Some u.
Proof.
  intros Hne Hc1 Hc2 Hu1 Hu2. cbv zeta.
  destruct (on_close_present w c1 u Hc1 Hu1) as (sent & ->).
  simpl. repeat split;
    [apply removed_absent | apply removed_other; assumption | exact Hu2].
Qed.

(** *** [open] when every channel is open *)

Lemma open_all_open
      (w : world) (self : conn) (requested : option pystr) (rand : N) :
  all_open w -> self ∉ closed w ->
  let name := assigned_username requested rand in
  let w1 := registered self name w in
  open self requested rand w
  = (Return tt,
     sent_to [self] (welcome_text name)
       (sent_to (elements (clients w1)) (roster_text w1) w1)).
Proof.
  intros Hopen Hself. cbv zeta. unfold open. run. cbv zeta.
  fold (registered self (assigned_username requested rand) w).
  set (w1 := registered _ _ _).
  assert (Hopen1 : all_open w1).
  { intros c Hc. subst w1. simpl in *.
    apply elem_of_union in Hc as [Hc|Hc]; [apply Hopen; exact Hc|].
    apply elem_of_singleton in Hc. subst c. exact Hself. }
  rewrite update_clients_list_all_open by exact Hopen1.
  rewrite write_message_open by exact Hself.
  reflexivity.
Qed.

(** A roster update and a welcome message never have the same text:
    they differ at the first letter of their type. *)
Lemma roster_not_welcome (online : list pystr) (u : pystr) :
  json_dumps (clients_envelope online) <> welcome_text u.
Proof.
  unfold welcome_text, clients_envelope, welcome_envelope.
  cbn [json_dumps List.map fst snd join].
  unfold encode_basestring_ascii. eval_lits.
  intros Heq. cbv [escape_body flat_map escape_char] in Heq.
  cbn [N.eqb Pos.eqb N.leb N.compare Pos.compare Pos.compare_cont andb app]
    in Heq.
  discriminate Heq.
Qed.

(** *** The listener *)

Lemma for_each_app {A} (body : A -> M unit) (xs ys : list A) :
  forall w,
    for_each (xs ++ ys) body w
    = match for_each xs body w with
      | (Return _, w1) => for_each ys body w1
      | (Raise e, w1) => (Raise e, w1)
      end.
Proof.
  induction xs as [|x xs IH]; intros w; simpl.
  - reflexivity.
  - run. destruct (body x w) as [[[]|e] w1]; [apply IH | reflexivity].
Qed.

Lemma for_each_stops {A} (body : A -> M unit) (x : A) (rest : list A)
      (e : exn) (w w1 : world) :
  body x w = (Raise e, w1) -> for_each (x :: rest) body w = (Raise e, w1).
Proof. intros Hx. simpl. run. rewrite Hx. reflexivity. Qed.


(** One published payload that parses, with every channel open: the
    re-serialized value goes to every registered connection. *)
Lemma listener_step_delivers (payload : pystr) (v : json) (w : world) :
  json_loads payload = POk v -> all_open w ->
  listener_step (delivery payload) w
  = (Return tt, sent_to (elements (clients w)) (json_dumps v) w).
Proof.
  intros Hv Hopen. unfold listener_step, delivery. simpl. run. simpl.
  rewrite Hv. apply for_each_write_all.
  intros c Hc. apply Hopen. apply elem_of_elements. exact Hc.
Qed.

(** One published payload that does not parse: [json.loads] raises. *)
Lemma listener_step_invalid (bad : pystr) (w : world) :
  (forall v, json_loads bad <> POk v) ->
  listener_step (delivery bad) w = (Raise JSONDecodeError, w).
Proof.
  intros Hbad. unfold listener_step, delivery. simpl. run. simpl.
  destruct (json_loads bad) as [v| |]; [destruct (Hbad v) | |]; reflexivity.
Qed.

(** C9: a payload on the chat channel that is not valid JSON makes the
    parse step raise [JSONDecodeError]; the exception leaves the loop of
    the listener, so the world stays as the messages before it left it and
    no later message is delivered to anyone. *)
Theorem invalid_json_stops_listener
        (w w1 : world) (earlier later : list bus_message) (bad : pystr) :
  (forall v, json_loads bad <> POk v) ->
  redis_listener earlier w = (Return tt, w1) ->
  start_redis_listener (earlier ++ delivery bad :: later) w
  = (Raise JSONDecodeError, w1).
Proof.
  intros Hbad Hearlier. unfold start_redis_listener, redis_listener in *.
  rewrite for_each_app, Hearlier.
  apply for_each_stops. apply listener_step_invalid. exact Hbad.
Qed.

(** C3, as amended: in a broadcast, the first send that fails raises
    [WebSocketClosedError] out of the loop.  The connections before it in
    the iteration were written to; the connections after it are not
    reached.  [update_clients_list] raises to its caller, and the listener
    ends with the exception, whatever messages follow on the bus. *)
Theorem failed_send_aborts_broadcast
        (w : world) (reached : list conn) (failing : conn)
        (unreached : list conn) :
  elements (clients w) = reached ++ failing :: unreached ->
  (forall c, c ∈ reached -> c ∉ closed w) ->
  failing ∈ closed w ->
  (forall self,
      update_clients_list self w
      = (Raise WebSocketClosedError, sent_to reached (roster_text w) w))
  /\ (forall payload v later,
         json_loads payload = POk v ->
         start_redis_listener (delivery payload :: later) w
         = (Raise WebSocketClosedError, sent_to reached (json_dumps v) w)).
Proof.
  intros Horder Hreached Hfailing. split.
  - intros self. unfold update_clients_list. run. rewrite Horder.
    apply for_each_write_fails; assumption.
  - intros payload v later Hv.
    unfold start_redis_listener, redis_listener.
    apply for_each_stops.
    unfold listener_step, delivery. simpl. run. simpl.
    rewrite Hv, Horder.
    apply for_each_write_fails; assumption.
Qed.

End Handlers.

End ChatFacts.

(** * The theorems on concrete worlds *)

Module Witnesses.
Import Chat ChatFacts Scenario.

Lemma all_open_w_alice : all_open w_alice.
Proof. intros c _. apply not_elem_of_empty. Qed.

Lemma all_open_w_shared : all_open w_shared.
Proof. intros c _. apply not_elem_of_empty. Qed.

(** C6 on the world of alice: her connection sends [hello]. *)
Lemma on_message_publishes_envelope_witness :
  username w_alice !! 1%nat = Some alice
  /\ exists w',
      on_message 1%nat (lit "hello") w_alice = (Return tt, w')
      /\ length (published w') = 1%nat
      /\ outbox w' = [].
Proof.
  split; [reflexivity|].
  destruct (on_message_publishes_envelope w_alice 1%nat alice (lit "hello")
              eq_refl)
    as (w' & Hrun & Hpub & Hout & _).
  exists w'. split; [exact Hrun|].
  split; [rewrite Hpub; reflexivity | exact Hout].
Defined.

(** C4 on the world of two connections of alice: connection 1 closes. *)
Lemma close_drops_shared_username_witness :
  (1%nat ∈ clients w_shared) /\ (2%nat ∈ clients w_shared)
  /\ username w_shared !! 1%nat = Some alice
  /\ username w_shared !! 2%nat = Some alice
  /\ (alice ∉ online_clients (snd (on_close 1%nat w_shared)))
  /\ (2%nat ∈ clients (snd (on_close 1%nat w_shared))).
Proof.
  assert (H1 : 1%nat ∈ clients w_shared) by (vm_compute; reflexivity).
  assert (H2 : 2%nat ∈ clients w_shared) by (vm_compute; reflexivity).
  destruct (close_drops_shared_username w_shared 1%nat 2%nat alice
              ltac:(lia) H1 H2 eq_refl eq_refl)
    as (Hgone & Hstays & _).
  repeat split; assumption || reflexivity.
Defined.

Lemma oops_is_not_json (v : json) : json_loads (lit "oops") <> POk v.
Proof. vm_compute. discriminate. Qed.

(** C9 on the world of two connections of alice: the text [oops] arrives
    before a valid one. *)
Lemma invalid_json_stops_listener_witness :
  redis_listener [] w_shared = (Return tt, w_shared)
  /\ start_redis_listener [delivery (lit "oops"); delivery (lit "{}")] w_shared
     = (Raise JSONDecodeError, w_shared).
Proof.
  split; [reflexivity|].
  apply (invalid_json_stops_listener w_shared w_shared []
           [delivery (lit "{}")] (lit "oops") oops_is_not_json eq_refl).
Defined.

(** C3, as amended, on the world with a closing connection: the roster
    broadcast raises at connection 2, the first in the iteration, and
    connection 1 is not reached. *)
Lemma failed_send_aborts_broadcast_witness :
  elements (clients w_stale) = [] ++ 2%nat :: [1%nat]
  /\ (2%nat ∈ closed w_stale)
  /\ update_clients_list 1%nat w_stale
     = (Raise WebSocketClosedError, sent_to [] (roster_text w_stale) w_stale).
Proof.
  assert (Horder : elements (clients w_stale) = [] ++ 2%nat :: [1%nat])
    by (vm_compute; reflexivity).
  assert (Hclosed : 2%nat ∈ closed w_stale) by (vm_compute; reflexivity).
  split; [exact Horder|]. split; [exact Hclosed|].
  apply (failed_send_aborts_broadcast w_stale [] 2%nat [1%nat] Horder).
  - intros c Hc. inversion Hc.
  - exact Hclosed.
Defined.

(** C3, as stated, fails on the world with a closing connection.  The
    channel of connection 1 is open and the channel of connection 2 is
    closing, so every broadcast reaches a failing send, in whatever order
    the registry is iterated: the roster broadcast raises, and the listener
    raises at the first of two messages and never reads the second, which
    the open connection 1 therefore does not get. *)
Lemma closing_connection_starves_open_one :
  (1%nat ∈ clients w_stale) /\ (1%nat ∉ closed w_stale)
  /\ fst (update_clients_list 1%nat w_stale) = Raise WebSocketClosedError
  /\ fst (redis_listener [delivery (lit "{}"); delivery (lit "[]")] w_stale)
     = Raise WebSocketClosedError
  /\ ((1%nat, lit "[]")
        ∉ outbox (snd (redis_listener
                         [delivery (lit "{}"); delivery (lit "[]")] w_stale))).
Proof.
  split; [vm_compute; reflexivity|].
  split; [intros Hin; vm_compute in Hin; discriminate Hin|].
  split; [vm_compute; reflexivity|].
  split; [vm_compute; reflexivity|].
  intros Hin. vm_compute in Hin. inversion Hin.
Qed.

(** C2, as stated, fails on the world of alice: the first [on_close] of her
    connection returns, the second one raises [KeyError]. *)
Lemma second_close_throws :
  fst (on_close 1%nat w_alice) = Return tt
  /\ fst (on_close 1%nat (snd (on_close 1%nat w_alice))) = Raise KeyError.
Proof. split; vm_compute; reflexivity. Qed.

(** The scenario of two users: alice and bob open, alice says hello, the
    listener delivers it, bob closes.  The last frame alice receives is the
    roster with her name alone. *)
Example two_users_scenario :
  let w0 := mkWorld ∅ ∅ ∅ [] ∅ [] in
  let w1 := snd (open 1%nat (Some alice) 0 w0) in
  let w2 := snd (open 2%nat (Some bob) 0 w1) in
  let w3 := snd (on_message 1%nat (lit "hello") w2) in
  let bus := List.map (fun p => delivery (snd p)) (published w3) in
  let w4 := snd (redis_listener bus w3) in
  let w5 := snd (on_close 2%nat w4) in
  let hello := json_dumps (message_envelope alice (lit "hello")) in
  ((1%nat, hello) ∈ outbox w4)
  /\ ((2%nat, hello) ∈ outbox w4)
  /\ last (outbox w5) = Some (1%nat, json_dumps (clients_envelope [alice])).
Proof.
  cbv zeta. split; [|split].
  - vm_compute. do 6 right. left.
  - vm_compute. do 5 right. left.
  - vm_compute. reflexivity.
Qed.

End Witnesses.

(** * More facts about the JSON text *)

Module JsonExact.
Import JsonFacts Props.

#[local] Arguments decode_hex4 : simpl never.
#[local] Arguments is_high_surrogate : simpl never.
#[local] Arguments is_low_surrogate : simpl never.
#[local] Arguments join_surrogates : simpl never.
#[local] Arguments cons_char : simpl never.
#[local] Arguments hex4 : simpl never.
#[local] Arguments escape_body : simpl never.
#[local] Arguments scanstring : simpl nomatch.

(** *** Decoding an encoded text of scalar values gives it back *)

Lemma escape_char_cases_low (c : N) :
  c < 65536 ->
  (exists e, escape_char c = [92; e] /\ e <> 117 /\ unescape e = Some c)
  \/ (escape_char c = [c] /\ c <> 34 /\ c <> 92 /\ 32 <= c)
  \/ escape_char c = 92 :: 117 :: hex4 c.
Proof.
  intros Hlt. unfold escape_char.
  destruct (N.eqb_spec c 34) as [->|H34].
  { left. exists 34. repeat split; lia. }
  destruct (N.eqb_spec c 92) as [->|H92].
  { left. exists 92. repeat split; lia. }
  destruct (N.eqb_spec c 8) as [->|H8].
  { left. exists 98. repeat split; lia. }
  destruct (N.eqb_spec c 12) as [->|H12].
  { left. exists 102. repeat split; lia. }
  destruct (N.eqb_spec c 10) as [->|H10].
  { left. exists 110. repeat split; lia. }
  destruct (N.eqb_spec c 13) as [->|H13].
  { left. exists 114. repeat split; lia. }
  destruct (N.eqb_spec c 9) as [->|H9].
  { left. exists 116. repeat split; lia. }
  destruct ((32 <=? c) && (c <=? 126)) eqn:Hprint.
  { right. left. apply andb_true_iff in Hprint as [Hlo _].
    apply N.leb_le in Hlo. repeat split; assumption. }
  right. right.
  replace (c <? 65536) with true by (symmetry; apply N.ltb_lt; exact Hlt).
  reflexivity.
Qed.

Lemma scalar_cases (c : N) :
  is_scalar c = true ->
  (c < 65536 /\ is_high_surrogate c = false)
  \/ (65536 <= c /\ c < 1114112).
Proof.
  unfold is_scalar, is_high_surrogate. intros Hc.
  apply orb_true_iff in Hc as [Hc|Hc].
  - apply N.ltb_lt in Hc. left. split; [lia|].
    apply andb_false_iff. left. apply N.leb_gt. lia.
  - apply andb_true_iff in Hc as [Hlo Hhi].
    apply N.ltb_lt in Hlo, Hhi.
    destruct (N.lt_ge_cases c 65536) as [Hlt|Hge].
    + left. split; [exact Hlt|].
      apply andb_false_iff. right. apply N.leb_gt. lia.
    + right. split; assumption.
Qed.

Lemma scanstring_escape_exact (s rest : pystr) :
  well_formed s ->
  scanstring (escape_body s ++ 34 :: rest) = Some (s, rest).
Proof.
  unfold well_formed. induction s as [|c t IH]; intros Hwf.
  - reflexivity.
  - simpl in Hwf. apply andb_true_iff in Hwf as [Hc Ht].
    specialize (IH Ht). rewrite escaped_text_cons.
    set (k := escape_body t ++ 34 :: rest) in *.
    destruct (scalar_cases c Hc) as [[Hlt Hhigh] | [Hge Hmax]].
    + destruct (escape_char_cases_low c Hlt)
        as [(e & Hesc & He & Hun) | [(Hesc & H34 & H92 & H32) | Hesc]];
        rewrite Hesc.
      * cbn [app]. rewrite (scan_short e c k He Hun).
        apply cons_char_some. exact IH.
      * cbn [app]. rewrite (scan_plain c k H34 H92 H32).
        apply cons_char_some. exact IH.
      * destruct (hex4_shape c Hlt) as (h1 & h2 & h3 & h4 & Hhex & Hdec).
        rewrite Hhex. cbn [app].
        rewrite (scan_u_not_high _ _ _ _ _ Hdec k Hhigh).
        apply cons_char_some. exact IH.
    + rewrite (escape_char_astral c Hge).
      set (a := (c - 65536) / 1024 mod 1024).
      set (b := (c - 65536) mod 1024).
      assert (Ha : a < 1024) by (apply N.mod_lt; lia).
      assert (Hb : b < 1024) by (apply N.mod_lt; lia).
      assert (Hjoin : join_surrogates (55296 + a) (56320 + b) = c).
      { rewrite join_surrogates_value by assumption.
        assert (Hsmall : (c - 65536) / 1024 < 1024)
          by (apply N.Div0.div_lt_upper_bound; lia).
        subst a b. rewrite (N.mod_small _ _ Hsmall).
        pose proof (N.div_mod (c - 65536) 1024 ltac:(lia)) as Hdm.
        lia. }
      destruct (hex4_shape (55296 + a) ltac:(lia))
        as (h1 & h2 & h3 & h4 & Hhex & Hdec).
      destruct (hex4_shape (56320 + b) ltac:(lia))
        as (g1 & g2 & g3 & g4 & Hhex2 & Hdec2).
      rewrite Hhex, Hhex2. cbn [app].
      rewrite (scan_u_then_u _ _ _ _ _ Hdec _ _ _ _ _ _ Hdec2).
      rewrite (proj1 (high_surrogate_range a Ha)).
      rewrite (proj1 (low_surrogate_range b Hb)). cbn [andb].
      rewrite Hjoin. apply cons_char_some. exact IH.
Qed.

End JsonExact.

(** * More facts about the handlers and the listener *)

Module MoreFacts.
Import Chat JsonFacts ChatFacts Props JsonExact.

#[local] Arguments escape_body : simpl never.
#[local] Arguments scanstring : simpl nomatch.

Lemma well_formed_app (a b : pystr) :
  well_formed a -> well_formed b -> well_formed (a ++ b).
Proof.
  unfold well_formed. intros Ha Hb. rewrite forallb_app, Ha, Hb. reflexivity.
Qed.

(** Enough budget for a text that starts with three characters. *)
Ltac budget_of_text :=
  match goal with
  | |- context [(2 * length ?t + 2)%nat] =>
      let Hfuel := fresh "Hfuel" in
      assert (Hfuel : exists f, (2 * length t + 2 = 8 + f)%nat);
      [ exists (2 * length t + 2 - 8)%nat;
        cbn [app length lit List.map list_ascii_of_string]; lia
      | destruct Hfuel as (? & ->) ]
  end.

(** *** One step of the scanner on an object or an array *)

Lemma scan_once_string (f : nat) (r str r' : pystr) :
  scanstring r = Some (str, r') ->
  scan_once (S f) (34 :: r) = POk (JStr str, r').
Proof. intros Hs. simpl. rewrite Hs. reflexivity. Qed.

Lemma scan_once_object (f : nat) (r r1 : pystr) :
  skip_ws r = 34 :: r1 ->
  scan_once (S f) (123 :: r) = parse_members f r1 [].
Proof. intros Hr. simpl. rewrite Hr. reflexivity. Qed.

Lemma scan_once_empty_array (f : nat) (r r1 : pystr) :
  skip_ws r = 93 :: r1 ->
  scan_once (S f) (91 :: r) = POk (JArr [], r1).
Proof. intros Hr. simpl. rewrite Hr. reflexivity. Qed.

Lemma parse_members_last (f : nat) (s : pystr) (acc : list (pystr * json))
      (key r r1 : pystr) (v : json) (r2 r3 : pystr) :
  scanstring s = Some (key, r) ->
  skip_ws r = 58 :: r1 ->
  scan_once f (skip_ws r1) = POk (v, r2) ->
  skip_ws r2 = 125 :: r3 ->
  parse_members (S f) s acc
  = POk (JObj (dict_of_pairs (acc ++ [(key, v)])), r3).
Proof.
  intros Hkey Hcolon Hval Hclose. simpl.
  rewrite Hkey, Hcolon. simpl. rewrite Hval, Hclose. reflexivity.
Qed.

Lemma parse_members_more (f : nat) (s : pystr) (acc : list (pystr * json))
      (key r r1 : pystr) (v : json) (r2 r3 r4 : pystr) :
  scanstring s = Some (key, r) ->
  skip_ws r = 58 :: r1 ->
  scan_once f (skip_ws r1) = POk (v, r2) ->
  skip_ws r2 = 44 :: r3 ->
  skip_ws r3 = 34 :: r4 ->
  parse_members (S f) s acc = parse_members f r4 (acc ++ [(key, v)]).
Proof.
  intros Hkey Hcolon Hval Hcomma Hquote. simpl.
  rewrite Hkey, Hcolon. simpl. rewrite Hval, Hcomma. simpl.
  rewrite Hquote. reflexivity.
Qed.

Lemma parse_elems_last (f : nat) (s : pystr) (acc : list json)
      (v : json) (r r1 : pystr) :
  scan_once f s = POk (v, r) ->
  skip_ws r = 93 :: r1 ->
  parse_elems (S f) s acc = POk (JArr (acc ++ [v]), r1).
Proof. intros Hval Hclose. simpl. rewrite Hval, Hclose. reflexivity. Qed.

Lemma parse_elems_more (f : nat) (s : pystr) (acc : list json)
      (v : json) (r r1 : pystr) :
  scan_once f s = POk (v, r) ->
  skip_ws r = 44 :: r1 ->
  parse_elems (S f) s acc = parse_elems f (skip_ws r1) (acc ++ [v]).
Proof. intros Hval Hcomma. simpl. rewrite Hval, Hcomma. reflexivity. Qed.

Section Frames.
Context `{PyFloat}.

(** X1: for a sender name and a message text of Unicode scalar values, the
    text [on_message] publishes parses to exactly the chat envelope with
    that sender and that message. *)
Theorem published_text_decodes_exactly (u m : pystr) :
  well_formed u -> well_formed m ->
  json_loads (json_dumps (message_envelope u m)) = POk (message_envelope u m).
Proof.
  intros Hu Hm.
  pose proof (scanstring_escape_exact m [125; 125] Hm) as Hsm.
  pose proof (scanstring_escape_exact u
                (lit ", " ++ 34 :: lit "message" ++ 34 :: lit ": "
                   ++ 34 :: escape_body m ++ [34; 125; 125]) Hu) as Hsu.
  rewrite message_envelope_text. unfold json_loads.
  budget_of_text.
  eval_lits. cbn [app] in Hsu |- *.
  cbn - [escape_body]. rewrite Hsu.
  cbn - [escape_body]. rewrite Hsm.
  reflexivity.
Qed.

(** The text of an object with the type [welcome] and a message. *)
Lemma welcome_object_text (body : pystr) :
  json_dumps (JObj [(lit "type", JStr (lit "welcome"));
                    (lit "message", JStr body)])
  = (123 :: 34 :: lit "type" ++ 34 :: lit ": " ++ 34 :: lit "welcome"
         ++ 34 :: lit ", " ++ 34 :: lit "message" ++ 34 :: lit ": " ++ [34])
      ++ escape_body body ++ [34; 125].
Proof.
  cbn. unfold encode_basestring_ascii. cbn.
  repeat (rewrite <- ?app_assoc; cbn). reflexivity.
Qed.

Lemma welcome_object_decodes (body : pystr) :
  well_formed body ->
  json_loads (json_dumps (JObj [(lit "type", JStr (lit "welcome"));
                                (lit "message", JStr body)]))
  = POk (JObj [(lit "type", JStr (lit "welcome"));
               (lit "message", JStr body)]).
Proof.
  intros Hwf.
  pose proof (scanstring_escape_exact body [125] Hwf) as Hs.
  rewrite welcome_object_text. unfold json_loads.
  budget_of_text.
  eval_lits. cbn [app Nat.add skip_ws is_ws N.eqb Pos.eqb orb] in Hs |- *.
  erewrite scan_once_object by reflexivity.
  erewrite parse_members_more;
    [ | reflexivity | reflexivity
      | apply scan_once_string; reflexivity | reflexivity | reflexivity ].
  erewrite parse_members_last;
    [ | reflexivity | reflexivity
      | apply scan_once_string; exact Hs | reflexivity ].
  reflexivity.
Qed.

(** X2: for a user name of Unicode scalar values, the welcome text [open]
    writes parses to exactly the welcome envelope: type [welcome] and the
    greeting followed by the name and an exclamation mark. *)
Theorem welcome_text_decodes_exactly (u : pystr) :
  well_formed u ->
  json_loads (welcome_text u)
  = POk (JObj [(lit "type", JStr (lit "welcome"));
               (lit "message", JStr (greeting ++ u ++ lit "!"))]).
Proof.
  intros Hu. unfold welcome_text, welcome_envelope.
  apply welcome_object_decodes.
  apply well_formed_app; [vm_compute; reflexivity|].
  apply well_formed_app; [exact Hu | vm_compute; reflexivity].
Qed.

(** *** The roster text *)

Lemma scan_once_name (f : nat) (s rest : pystr) :
  well_formed s ->
  scan_once (S f) (encode_basestring_ascii s ++ rest) = POk (JStr s, rest).
Proof.
  intros Hs. unfold encode_basestring_ascii. cbn [app].
  rewrite <- app_assoc. cbn [app].
  apply scan_once_string. apply scanstring_escape_exact. exact Hs.
Qed.

Lemma names_text_head (s : pystr) (l : list pystr) :
  exists t,
    join (lit ", ") (List.map encode_basestring_ascii (s :: l)) = 34 :: t.
Proof.
  destruct l as [|s1 l]; cbn [List.map join encode_basestring_ascii app];
    eexists; reflexivity.
Qed.

Lemma names_text_length (l : list pystr) :
  (length l <= length (join (lit ", ") (List.map encode_basestring_ascii l)))%nat.
Proof.
  induction l as [|s [|s1 l] IH].
  - simpl. lia.
  - simpl. lia.
  - change (join (lit ", ") (List.map encode_basestring_ascii (s :: s1 :: l)))
      with (encode_basestring_ascii s ++ lit ", "
              ++ join (lit ", ") (List.map encode_basestring_ascii (s1 :: l))).
    rewrite !length_app. simpl in *. lia.
Qed.

(** The loop of [JSONArray] on the encoded names, up to the closing
    bracket. *)
Lemma parse_names (l : list pystr) :
  forall (s0 : pystr) (f : nat) (acc : list json) (rest : pystr),
    well_formed s0 -> Forall well_formed l ->
    parse_elems (S (S (length l + f)))
      (join (lit ", ") (List.map encode_basestring_ascii (s0 :: l))
         ++ 93 :: rest) acc
    = POk (JArr (acc ++ List.map JStr (s0 :: l)), rest).
Proof.
  induction l as [|s1 l IH]; intros s0 f acc rest Hs0 Hl.
  - cbn [List.map join length Nat.add].
    erewrite parse_elems_last;
      [ reflexivity | apply scan_once_name; exact Hs0 | reflexivity ].
  - apply Forall_cons_iff in Hl as [Hs1 Hl].
    change (join (lit ", ") (List.map encode_basestring_ascii (s0 :: s1 :: l)))
      with (encode_basestring_ascii s0
              ++ 44 :: 32
              :: join (lit ", ") (List.map encode_basestring_ascii (s1 :: l))).
    rewrite <- app_assoc. cbn [app].
    destruct (names_text_head s1 l) as (t & Ht).
    cbn [length Nat.add].
    erewrite parse_elems_more;
      [ | apply scan_once_name; exact Hs0 | reflexivity ].
    replace (skip_ws
               (32 :: join (lit ", ")
                        (List.map encode_basestring_ascii (s1 :: l))
                   ++ 93 :: rest))
      with (join (lit ", ") (List.map encode_basestring_ascii (s1 :: l))
              ++ 93 :: rest)
      by (rewrite Ht; reflexivity).
    rewrite (IH s1 f (acc ++ [JStr s0]) rest Hs1 Hl).
    rewrite <- app_assoc. reflexivity.
Qed.

Lemma scan_once_names_array (f : nat) (s0 : pystr) (l : list pystr)
      (rest : pystr) :
  scan_once (S f)
    (91 :: join [44; 32] (List.map encode_basestring_ascii (s0 :: l)) ++ rest)
  = parse_elems f
      (join [44; 32] (List.map encode_basestring_ascii (s0 :: l)) ++ rest) [].
Proof.
  destruct (names_text_head s0 l) as (t & Ht).
  change (lit ", ") with [44; 32] in Ht. rewrite Ht. reflexivity.
Qed.

Lemma roster_object_text (l : list pystr) :
  json_dumps (clients_envelope l)
  = (123 :: 34 :: lit "type" ++ 34 :: lit ": " ++ 34 :: lit "clients"
         ++ 34 :: lit ", " ++ 34 :: lit "clients" ++ 34 :: lit ": " ++ [91])
      ++ join (lit ", ") (List.map encode_basestring_ascii l) ++ [93; 125].
Proof.
  assert (Hmap : List.map json_dumps (List.map JStr l)
                 = List.map encode_basestring_ascii l).
  { induction l as [|s l IH]; [reflexivity|]. simpl. rewrite IH. reflexivity. }
  unfold clients_envelope.
  cbn [json_dumps List.map fst snd join]. rewrite Hmap.
  unfold encode_basestring_ascii at 1 2 3 4.
  eval_lits. cbv [escape_body flat_map escape_char].
  cbn [N.eqb Pos.eqb N.leb N.compare Pos.compare Pos.compare_cont andb app].
  repeat (rewrite <- ?app_assoc; cbn [app]). reflexivity.
Qed.

(** X3: for user names of Unicode scalar values, the roster text that
    [update_clients_list] writes parses to exactly the roster envelope: type
    [clients] and the list of the names in the order they were listed. *)
Theorem roster_text_decodes_exactly (names : list pystr) :
  Forall well_formed names ->
  json_loads (json_dumps (clients_envelope names))
  = POk (JObj [(lit "type", JStr (lit "clients"));
               (lit "clients", JArr (List.map JStr names))]).
Proof.
  intros Hnames. rewrite roster_object_text. unfold json_loads.
  pose proof (names_text_length names) as Hlen.
  match goal with
  | |- context [(2 * length ?t + 2)%nat] =>
      assert (Hfuel : exists f,
                 (2 * length t + 2 = 4 + S (S (length (tl names) + f)))%nat)
  end.
  { match goal with
    | |- exists f, (2 * length ?t + 2 = _)%nat =>
        exists (2 * length t + 2 - 6 - length (tl names))%nat
    end.
    rewrite !length_app.
    cbn [app length lit List.map list_ascii_of_string] in *.
    destruct names; simpl in *; lia. }
  destruct Hfuel as (f & ->).
  eval_lits. cbn [app Nat.add skip_ws is_ws N.eqb Pos.eqb orb].
  erewrite scan_once_object by reflexivity.
  erewrite parse_members_more;
    [ | reflexivity | reflexivity
      | apply scan_once_string; reflexivity | reflexivity | reflexivity ].
  destruct names as [|s0 l].
  - erewrite parse_members_last;
      [ | reflexivity | reflexivity
        | apply scan_once_empty_array; reflexivity | reflexivity ].
    reflexivity.
  - apply Forall_cons_iff in Hnames as [Hs0 Hl].
    erewrite parse_members_last;
      [ | reflexivity | reflexivity
        | cbn [skip_ws is_ws N.eqb Pos.eqb orb tl];
          rewrite scan_once_names_array;
          apply (parse_names l s0 f [] [125] Hs0 Hl)
        | reflexivity ].
    reflexivity.
Qed.

End Frames.

(** *** What the broadcasts write, whatever their outcome *)

Lemma set_outbox_twice (f g : list (conn * pystr) -> list (conn * pystr))
      (w : world) :
  set_outbox g (set_outbox f w) = set_outbox (fun o => g (f o)) w.
Proof. reflexivity. Qed.

Lemma set_outbox_nothing (w : world) : set_outbox (fun o => o ++ []) w = w.
Proof. apply world_eq; try reflexivity. simpl. apply app_nil_r. Qed.

Lemma set_outbox_app (a b : list (conn * pystr)) (w : world) :
  set_outbox (fun o => o ++ b) (set_outbox (fun o => o ++ a) w)
  = set_outbox (fun o => o ++ (a ++ b)) w.
Proof. apply world_eq; try reflexivity. simpl. rewrite app_assoc. reflexivity. Qed.

(** The loop writes [p] to connections of [cs] whose channel is open, and
    changes nothing but the outbox. *)
Lemma for_each_write_open_only (p : pystr) (cs : list conn) :
  forall w, exists sent,
    snd (for_each cs (fun c => write_message c p) w)
    = set_outbox (fun o => o ++ sent) w
    /\ forall fr, fr ∈ sent -> fr.2 = p /\ fr.1 ∈ cs /\ fr.1 ∉ closed w.
Proof.
  induction cs as [|c cs IH]; intros w.
  - exists []. split; [|intros fr Hfr; inversion Hfr].
    simpl. symmetry. apply set_outbox_nothing.
  - simpl. run. unfold write_message at 1.
    destruct (decide (c ∈ closed w)) as [Hc|Hc].
    + exists []. split; [|intros fr Hfr; inversion Hfr].
      simpl. symmetry. apply set_outbox_nothing.
    + destruct (IH (set_outbox (fun o => o ++ [(c, p)]) w))
        as (sent & Heq & Hsent).
      exists ((c, p) :: sent). split.
      * rewrite Heq. apply (set_outbox_app [(c, p)] sent).
      * intros fr Hfr. apply elem_of_cons in Hfr as [->|Hfr].
        -- split; [reflexivity|]. split; [left | exact Hc].
        -- destruct (Hsent fr Hfr) as (Hp & Hin & Hopen).
           split; [exact Hp|]. split; [right; exact Hin | exact Hopen].
Qed.

Lemma union_then_remove {A} `{Countable A} (X : gset A) (x : A) :
  (X ∪ {[x]}) ∖ {[x]} = X ∖ {[x]}.
Proof.
  apply set_eq. intros y.
  rewrite !elem_of_difference, elem_of_union, elem_of_singleton. tauto.
Qed.

Lemma for_each_write_outcome (p : pystr) (cs : list conn) :
  forall w,
    fst (for_each cs (fun c => write_message c p) w) = Return tt
    \/ fst (for_each cs (fun c => write_message c p) w)
       = Raise WebSocketClosedError.
Proof.
  induction cs as [|c cs IH]; intros w; simpl; [left; reflexivity|].
  run. unfold write_message at 1 3.
  destruct (decide (c ∈ closed w)); [right; reflexivity | apply IH].
Qed.

(** *** The registry and the presence set *)

Lemma registered_presence_exact (w : world) (self : conn) (name : pystr) :
  presence_exact w -> self ∉ clients w ->
  presence_exact (registered self name w).
Proof.
  intros [Hsound Hcomplete] Hfresh. split.
  - intros c Hc. simpl in *.
    destruct (decide (c = self)) as [->|Hne].
    + exists name. split; [apply lookup_insert_eq | apply added_present].
    + apply elem_of_union in Hc as [Hc|Hc];
        [|apply elem_of_singleton in Hc; contradiction].
      destruct (Hsound c Hc) as (u & Hu & Hon).
      exists u. split; [|apply added_keeps; exact Hon].
      rewrite lookup_insert_ne by (intros Heq; apply Hne; symmetry; exact Heq).
      exact Hu.
  - intros u Hu. simpl in *.
    apply elem_of_union in Hu as [Hu|Hu].
    + destruct (Hcomplete u Hu) as (c & Hc & Hname).
      exists c. split; [apply added_keeps; exact Hc|].
      rewrite lookup_insert_ne by (intros ->; contradiction).
      exact Hname.
    + apply elem_of_singleton in Hu. subst u.
      exists self. split; [apply added_present | apply lookup_insert_eq].
Qed.

Lemma registered_distinct_names (w : world) (self : conn) (name : pystr) :
  presence_exact w -> distinct_names w ->
  self ∉ clients w -> name ∉ online_clients w ->
  distinct_names (registered self name w).
Proof.
  intros [Hsound _] Hdistinct Hfresh Hfree c1 c2 u Hc1 Hc2 Hu1 Hu2.
  simpl in *.
  assert (Hold : forall c, c ∈ clients w ∪ {[self]} -> c <> self ->
                           <[self := name]> (username w) !! c = Some u ->
                           c ∈ clients w /\ username w !! c = Some u
                           /\ u <> name).
  { intros c Hc Hne Hu.
    apply elem_of_union in Hc as [Hc|Hc];
      [|apply elem_of_singleton in Hc; contradiction].
    rewrite lookup_insert_ne in Hu
      by (intros Heq; apply Hne; symmetry; exact Heq).
    split; [exact Hc|]. split; [exact Hu|].
    intros ->. apply Hfree.
    destruct (Hsound c Hc) as (u' & Hu' & Hon).
    rewrite Hu in Hu'. injection Hu' as <-. exact Hon. }
  destruct (decide (c1 = self)) as [->|Hne1];
    destruct (decide (c2 = self)) as [->|Hne2].
  - reflexivity.
  - rewrite lookup_insert_eq in Hu1. injection Hu1 as <-.
    destruct (Hold c2 Hc2 Hne2 Hu2) as (_ & _ & Hcontra).
    destruct (Hcontra eq_refl).
  - rewrite lookup_insert_eq in Hu2. injection Hu2 as <-.
    destruct (Hold c1 Hc1 Hne1 Hu1) as (_ & _ & Hcontra).
    destruct (Hcontra eq_refl).
  - destruct (Hold c1 Hc1 Hne1 Hu1) as (H1 & Hn1 & _).
    destruct (Hold c2 Hc2 Hne2 Hu2) as (H2 & Hn2 & _).
    exact (Hdistinct c1 c2 u H1 H2 Hn1 Hn2).
Qed.

Lemma unregistered_presence_exact (w : world) (self : conn) (name : pystr) :
  presence_exact w -> distinct_names w ->
  self ∈ clients w -> username w !! self = Some name ->
  presence_exact (unregistered self name w).
Proof.
  intros [Hsound Hcomplete] Hdistinct Hin Hname. split.
  - intros c Hc. simpl in *.
    apply elem_of_difference in Hc as [Hc Hne].
    destruct (Hsound c Hc) as (u & Hu & Hon).
    exists u. split; [exact Hu|].
    apply elem_of_difference. split; [exact Hon|].
    intros Heq. apply elem_of_singleton in Heq. subst u.
    apply Hne. apply elem_of_singleton.
    exact (Hdistinct c self name Hc Hin Hu Hname).
  - intros u Hu. simpl in *.
    apply elem_of_difference in Hu as [Hu Hne].
    destruct (Hcomplete u Hu) as (c & Hc & Hcu).
    exists c. split; [|exact Hcu].
    apply elem_of_difference. split; [exact Hc|].
    intros Heq. apply elem_of_singleton in Heq. subst c.
    apply Hne. apply elem_of_singleton.
    rewrite Hname in Hcu. injection Hcu as ->. reflexivity.
Qed.

Lemma unregistered_distinct_names (w : world) (self : conn) (name : pystr) :
  distinct_names w -> distinct_names (unregistered self name w).
Proof.
  intros Hdistinct c1 c2 u Hc1 Hc2 Hu1 Hu2. simpl in *.
  apply elem_of_difference in Hc1 as [Hc1 _].
  apply elem_of_difference in Hc2 as [Hc2 _].
  exact (Hdistinct c1 c2 u Hc1 Hc2 Hu1 Hu2).
Qed.

Section Broadcasts.
Context `{PyFloat}.

(** X4: whatever its outcome, [update_clients_list] changes nothing but the
    outbox, and every frame it appends is the roster text of the current
    presence set, addressed to a registered connection whose channel is
    open. *)
Theorem roster_broadcast_writes_only_rosters (self : conn) (w : world) :
  exists sent,
    snd (update_clients_list self w) = set_outbox (fun o => o ++ sent) w
    /\ forall fr,
        fr ∈ sent ->
        fr.2 = roster_text w /\ (fr.1 ∈ clients w) /\ (fr.1 ∉ closed w).
Proof.
  unfold update_clients_list. run.
  destruct (for_each_write_open_only (roster_text w) (elements (clients w)) w)
    as (sent & Heq & Hsent).
  exists sent. split; [exact Heq|].
  intros fr Hfr. destruct (Hsent fr Hfr) as (Hp & Hc & Hopen).
  split; [exact Hp|]. split; [apply elem_of_elements; exact Hc | exact Hopen].
Qed.

Lemma listener_step_frame (m : bus_message) (w : world) :
  exists sent,
    snd (listener_step m w) = set_outbox (fun o => o ++ sent) w
    /\ forall fr, fr ∈ sent -> (fr.1 ∈ clients w) /\ (fr.1 ∉ closed w).
Proof.
  unfold listener_step.
  destruct (PyStr.eqb (msg_type m) (lit "message")).
  - run. unfold loads.
    destruct (msg_data m) as [text|n].
    + destruct (json_loads text) as [v| |].
      * destruct (for_each_write_open_only (json_dumps v)
                    (elements (clients w)) w) as (sent & Heq & Hsent).
        exists sent. split; [exact Heq|].
        intros fr Hfr. destruct (Hsent fr Hfr) as (_ & Hc & Hopen).
        split; [apply elem_of_elements; exact Hc | exact Hopen].
      * exists []. split; [|intros fr Hfr; inversion Hfr].
        simpl. symmetry. apply set_outbox_nothing.
      * exists []. split; [|intros fr Hfr; inversion Hfr].
        simpl. symmetry. apply set_outbox_nothing.
    + exists []. split; [|intros fr Hfr; inversion Hfr].
      simpl. symmetry. apply set_outbox_nothing.
  - exists []. split; [|intros fr Hfr; inversion Hfr].
    simpl. symmetry. apply set_outbox_nothing.
Qed.

(** X5: whatever the bus messages and whatever its outcome, the listener
    changes nothing but the outbox, and every frame it appends is addressed
    to a registered connection whose channel is open. *)
Theorem listener_writes_only_to_open_registered
        (messages : list bus_message) (w : world) :
  exists sent,
    snd (redis_listener messages w) = set_outbox (fun o => o ++ sent) w
    /\ forall fr, fr ∈ sent -> (fr.1 ∈ clients w) /\ (fr.1 ∉ closed w).
Proof.
  unfold redis_listener. revert w.
  induction messages as [|m ms IH]; intros w.
  - exists []. split; [|intros fr Hfr; inversion Hfr].
    simpl. symmetry. apply set_outbox_nothing.
  - simpl. run.
    destruct (listener_step_frame m w) as (sent1 & Heq1 & Hsent1).
    destruct (listener_step m w) as [[[]|e] w1]; simpl in Heq1; subst w1.
    + destruct (IH (set_outbox (fun o => o ++ sent1) w))
        as (sent2 & Heq2 & Hsent2).
      exists (sent1 ++ sent2). split.
      * rewrite Heq2. apply set_outbox_app.
      * intros fr Hfr. apply elem_of_app in Hfr as [Hfr|Hfr].
        -- apply Hsent1. exact Hfr.
        -- apply (Hsent2 fr Hfr).
    + exists sent1. split; [reflexivity | exact Hsent1].
Qed.

(** X6: bus messages of another type than [message], such as the
    confirmation of the subscription, never matter: the listener behaves on
    a stream as on the stream without them, whatever their data. *)
Theorem listener_ignores_other_types
        (messages : list bus_message) (w : world) :
  redis_listener messages w
  = redis_listener (List.filter is_chat_message messages) w.
Proof.
  unfold redis_listener. revert w.
  induction messages as [|m ms IH]; intros w; [reflexivity|].
  cbn [List.filter]. unfold is_chat_message at 1.
  destruct (PyStr.eqb (msg_type m) (lit "message")) eqn:Htype.
  - simpl. run. destruct (listener_step m w) as [[[]|e] w1];
      [apply IH | reflexivity].
  - simpl. run. unfold listener_step at 1. rewrite Htype. apply IH.
Qed.

Lemma on_message_all (self : conn) (u : pystr) (texts : list pystr) :
  forall w,
    username w !! self = Some u ->
    for_each texts (on_message self) w
    = (Return tt,
       set_published
         (fun p => p ++ List.map (fun t => (lit "chat_channel", t))
                         (envelopes_of u texts)) w).
Proof.
  induction texts as [|m texts IH]; intros w Hu.
  - simpl. f_equal. apply world_eq; try reflexivity.
    simpl. symmetry. apply app_nil_r.
  - simpl. run. rewrite (on_message_run w self u m Hu).
    rewrite IH by exact Hu. f_equal.
    apply world_eq; try reflexivity.
    simpl. rewrite <- app_assoc. reflexivity.
Qed.

Lemma listener_delivers_all (u : pystr) (texts : list pystr) :
  forall w,
    all_open w ->
    redis_listener (List.map delivery (envelopes_of u texts)) w
    = (Return tt,
       set_outbox
         (fun o => o ++ deliveries (elements (clients w)) (envelopes_of u texts))
         w).
Proof.
  unfold redis_listener.
  induction texts as [|m texts IH]; intros w Hopen.
  - simpl. f_equal. symmetry. apply set_outbox_nothing.
  - cbn [envelopes_of List.map for_each]. run.
    destruct (loads_message_envelope u m) as (u' & m' & Hloads & Hsame).
    rewrite (listener_step_delivers _ _ _ Hloads Hopen), Hsame.
    fold (envelopes_of u texts).
    rewrite IH by exact Hopen. f_equal.
    apply world_eq; try reflexivity.
    simpl. rewrite <- app_assoc. reflexivity.
Qed.

(** X7: the texts of one connection are published in the order they were
    received, and with every channel open the listener delivers them in
    that order, each one unchanged and to every registered connection
    before the next one. *)
Theorem texts_are_delivered_in_order
        (w : world) (self : conn) (u : pystr) (texts : list pystr) :
  username w !! self = Some u -> all_open w ->
  exists w1,
    for_each texts (on_message self) w = (Return tt, w1)
    /\ published w1
       = published w
           ++ List.map (fun t => (lit "chat_channel", t)) (envelopes_of u texts)
    /\ redis_listener (List.map delivery (envelopes_of u texts)) w1
       = (Return tt,
          set_outbox
            (fun o => o ++ deliveries (elements (clients w))
                            (envelopes_of u texts)) w1).
Proof.
  intros Hu Hopen. eexists.
  split; [apply on_message_all; exact Hu|].
  split; [reflexivity|].
  apply (listener_delivers_all u texts (set_published _ w)). exact Hopen.
Qed.

(** X8: [on_close] of a registered connection returns when the channels of
    the other registered connections are open, even though its own channel
    is closed: it writes to the remaining connections, and to them only, the
    roster computed without its user name. *)
Theorem close_notifies_the_others
        (w : world) (self : conn) (u : pystr) :
  self ∈ clients w -> username w !! self = Some u ->
  (forall c, c ∈ clients w -> c <> self -> c ∉ closed w) ->
  let roster :=
    json_dumps (clients_envelope (elements (online_clients w ∖ {[u]}))) in
  exists w',
    on_close self w = (Return tt, w')
    /\ outbox w'
       = outbox w
           ++ List.map (fun c => (c, roster)) (elements (clients w ∖ {[self]}))
    /\ clients w' = clients w ∖ {[self]}
    /\ online_clients w' = online_clients w ∖ {[u]}.
Proof.
  intros Hin Hu Hothers. cbv zeta. unfold on_close. run.
  rewrite bool_decide_eq_true_2 by exact Hin. simpl. rewrite Hu.
  set (w1 := set_online _ _).
  assert (Hopen1 : all_open w1).
  { intros c Hc. subst w1. simpl in *.
    apply elem_of_difference in Hc as [Hc Hne].
    apply Hothers; [exact Hc|].
    intros ->. apply Hne. apply elem_of_singleton. reflexivity. }
  rewrite (update_clients_list_all_open self w1 Hopen1).
  eexists. split; [reflexivity|]. repeat split.
Qed.

(** Whatever its outcome, [open] registers the connection and appends to
    the outbox. *)
Lemma open_world (w : world) (self : conn)
      (requested : option pystr) (rand : N) :
  exists sent,
    snd (open self requested rand w)
    = set_outbox (fun o => o ++ sent)
        (registered self (assigned_username requested rand) w).
Proof.
  unfold open. run. cbv zeta.
  set (name := assigned_username requested rand).
  fold (registered self name w).
  set (w1 := registered self name w).
  destruct (update_clients_list_frame self w1) as (sent & Heq & _).
  destruct (update_clients_list self w1) as [[[]|e] w1'] eqn:Hupd;
    simpl in Heq; subst w1'.
  - unfold write_message.
    destruct (decide (self ∈ closed (set_outbox (fun o => o ++ sent) w1))).
    + exists sent. reflexivity.
    + eexists. simpl. apply set_outbox_app.
  - exists sent. reflexivity.
Qed.

Lemma on_close_registered_outcome (w : world) (self : conn) :
  self ∈ clients w -> fst (on_close self w) <> Raise KeyError.
Proof.
  intros Hin. unfold on_close. run.
  rewrite bool_decide_eq_true_2 by exact Hin. simpl.
  destruct (username w !! self) as [u|]; [|discriminate].
  unfold update_clients_list. run.
  match goal with
  | |- fst (for_each ?cs (fun c => write_message c ?p) ?w0) <> _ =>
      destruct (for_each_write_outcome p cs w0) as [Hr|Hr];
      rewrite Hr; discriminate
  end.
Qed.

(** X9: [open] followed by [on_close] of the same connection, whatever the
    outcome of the two broadcasts: the connection is not registered, and
    the presence set is the one before [open] without the assigned name,
    also when another connection was online under that name. *)
Theorem open_then_close (w : world) (self : conn)
        (requested : option pystr) (rand : N) :
  let name := assigned_username requested rand in
  let w2 := snd (on_close self (snd (open self requested rand w))) in
  clients w2 = clients w ∖ {[self]}
  /\ online_clients w2 = online_clients w ∖ {[name]}
  /\ fst (on_close self (snd (open self requested rand w))) <> Raise KeyError.
Proof.
  cbv zeta.
  set (name := assigned_username requested rand).
  destruct (open_world w self requested rand) as (sent & Hopened).
  fold name in Hopened. rewrite Hopened. clear Hopened.
  set (w1 := set_outbox _ _).
  assert (Hin : self ∈ clients w1) by (simpl; apply added_present).
  assert (Hu : username w1 !! self = Some name)
    by (simpl; apply lookup_insert_eq).
  split; [|split].
  - destruct (on_close_present w1 self name Hin Hu) as (sent2 & ->).
    simpl. apply union_then_remove.
  - destruct (on_close_present w1 self name Hin Hu) as (sent2 & ->).
    simpl. apply union_then_remove.
  - apply on_close_registered_outcome. exact Hin.
Qed.

(** X10: [open] of a connection that is not registered yet, under a name
    that is not online yet, keeps the presence set exactly the set of the
    names of the registered connections, and keeps those names distinct;
    whatever the outcome of its broadcast. *)
Theorem open_keeps_presence_exact
        (w : world) (self : conn) (requested : option pystr) (rand : N) :
  presence_exact w -> distinct_names w ->
  self ∉ clients w ->
  assigned_username requested rand ∉ online_clients w ->
  presence_exact (snd (open self requested rand w))
  /\ distinct_names (snd (open self requested rand w)).
Proof.
  intros Hexact Hdistinct Hfresh Hfree.
  destruct (open_world w self requested rand) as (sent & ->).
  split.
  - exact (registered_presence_exact w self _ Hexact Hfresh).
  - exact (registered_distinct_names w self _ Hexact Hdistinct Hfresh Hfree).
Qed.

(** X11: when the names of the registered connections are distinct,
    [on_close] of a registered connection keeps the presence set exactly
    the set of the names of the registered connections; whatever the
    outcome of its broadcast. *)
Theorem close_keeps_presence_exact (w : world) (self : conn) :
  presence_exact w -> distinct_names w -> self ∈ clients w ->
  presence_exact (snd (on_close self w))
  /\ distinct_names (snd (on_close self w)).
Proof.
  intros Hexact Hdistinct Hin.
  destruct (proj1 Hexact self Hin) as (u & Hu & _).
  destruct (on_close_present w self u Hin Hu) as (sent & ->).
  fold (unregistered self u w). split.
  - exact (unregistered_presence_exact w self u Hexact Hdistinct Hin Hu).
  - exact (unregistered_distinct_names w self u Hdistinct).
Qed.

Lemma update_clients_list_fails
      (w : world) (self : conn)
      (reached : list conn) (failing : conn) (unreached : list conn) :
  elements (clients w) = reached ++ failing :: unreached ->
  (forall c, c ∈ reached -> c ∉ closed w) ->
  failing ∈ closed w ->
  update_clients_list self w
  = (Raise WebSocketClosedError, sent_to reached (roster_text w) w).
Proof.
  intros Horder Hreached Hfailing.
  unfold update_clients_list. run. rewrite Horder.
  apply for_each_write_fails; assumption.
Qed.

(** X12: when the roster broadcast of [open] reaches a closed channel,
    [open] raises [WebSocketClosedError] after it has registered the
    connection and its name: the connection stays registered and online,
    the roster went to the connections before the failing one, and no
    welcome message is written. *)
Theorem open_fails_after_registering
        (w : world) (self : conn) (requested : option pystr) (rand : N)
        (reached : list conn) (failing : conn) (unreached : list conn) :
  let w1 := registered self (assigned_username requested rand) w in
  elements (clients w1) = reached ++ failing :: unreached ->
  (forall c, c ∈ reached -> c ∉ closed w) ->
  failing ∈ closed w ->
  open self requested rand w
  = (Raise WebSocketClosedError, sent_to reached (roster_text w1) w1).
Proof.
  cbv zeta. intros Horder Hreached Hfailing.
  unfold open. run. cbv zeta.
  fold (registered self (assigned_username requested rand) w).
  set (w1 := registered _ _ _) in *.
  rewrite (update_clients_list_fails w1 self reached failing unreached
             Horder Hreached Hfailing).
  reflexivity.
Qed.

(** X13: when the roster broadcast of [on_close] reaches a closed channel,
    [on_close] raises [WebSocketClosedError] after it has removed the
    connection from the registry and its name from the presence set: the
    connection is gone although the call raised. *)
Theorem close_fails_after_unregistering
        (w : world) (self : conn) (u : pystr)
        (reached : list conn) (failing : conn) (unreached : list conn) :
  let w1 := unregistered self u w in
  self ∈ clients w -> username w !! self = Some u ->
  elements (clients w1) = reached ++ failing :: unreached ->
  (forall c, c ∈ reached -> c ∉ closed w) ->
  failing ∈ closed w ->
  on_close self w
  = (Raise WebSocketClosedError, sent_to reached (roster_text w1) w1).
Proof.
  cbv zeta. intros Hin Hu Horder Hreached Hfailing.
  unfold on_close. run.
  rewrite bool_decide_eq_true_2 by exact Hin. simpl. rewrite Hu.
  fold (unregistered self u w).
  set (w1 := unregistered self u w) in *.
  rewrite (update_clients_list_fails w1 self reached failing unreached
             Horder Hreached Hfailing).
  reflexivity.
Qed.

End Broadcasts.

(** *** The generated user name *)

Lemma hexdigit_is_hex_lower (d : N) : d < 16 -> is_hex_lower (hexdigit d) = true.
Proof.
  intros Hd.
  apply (below_by_cases (fun d => is_hex_lower (hexdigit d)) 16);
    [vm_compute; reflexivity | exact Hd].
Qed.

Lemma hex_fixed_is_hex_lower (width : nat) (n : N) :
  forallb is_hex_lower (hex_fixed width n) = true.
Proof.
  induction width as [|k IH]; [reflexivity|].
  cbn [hex_fixed forallb]. rewrite IH, hexdigit_is_hex_lower;
    [reflexivity | apply N.mod_lt; lia].
Qed.

Lemma forallb_firstn {A} (P : A -> bool) (k : nat) (l : list A) :
  forallb P l = true -> forallb P (firstn k l) = true.
Proof.
  revert k. induction l as [|x l IH]; intros [|k] Hl; try reflexivity.
  simpl in *. apply andb_true_iff in Hl as [Hx Hl].
  rewrite Hx, IH by exact Hl. reflexivity.
Qed.

(** X14: the user name generated for a missing or empty requested name is
    [User-] followed by eight characters of [0-9a-f], the first eight
    hexadecimal digits of the UUID, whatever the random bytes. *)
Theorem generated_username_is_hex (rand : N) :
  exists suffix,
    assigned_username None rand = lit "User-" ++ suffix
    /\ assigned_username (Some []) rand = lit "User-" ++ suffix
    /\ length suffix = 8%nat
    /\ forallb is_hex_lower suffix = true
    /\ suffix = firstn 8 (hex_fixed 32 (uuid4 rand)).
Proof.
  exists (firstn 8 (uuid_str (uuid4 rand))).
  assert (Hprefix : firstn 8 (uuid_str (uuid4 rand))
                    = firstn 8 (hex_fixed 32 (uuid4 rand))).
  { unfold uuid_str.
    rewrite take_app_le
      by (rewrite length_take, hex_fixed_length; simpl; lia).
    apply take_take. }
  split; [reflexivity|]. split; [reflexivity|].
  split; [apply uuid_prefix_length|].
  split; [|exact Hprefix].
  rewrite Hprefix. apply forallb_firstn. apply hex_fixed_is_hex_lower.
Qed.

End MoreFacts.

(** * Delivery with open and with closed channels *)

Module DeliveryFacts.
Import Chat JsonFacts ChatFacts Props JsonExact MoreFacts.

#[local] Arguments escape_body : simpl never.
#[local] Arguments scanstring : simpl nomatch.

(** *** The first closed channel of an iteration *)

Lemma first_closed (w : world) (cs : list conn) :
  (exists c, c ∈ cs /\ c ∈ closed w) ->
  exists reached failing unreached,
    cs = reached ++ failing :: unreached
    /\ (forall c, c ∈ reached -> c ∉ closed w)
    /\ failing ∈ closed w.
Proof.
  induction cs as [|a cs IH]; intros (c & Hc & Hclosed).
  - inversion Hc.
  - destruct (decide (a ∈ closed w)) as [Ha|Ha].
    + exists [], a, cs. split; [reflexivity|].
      split; [intros c' Hc'; inversion Hc' | exact Ha].
    + apply elem_of_cons in Hc as [->|Hc]; [contradiction|].
      destruct IH as (reached & failing & unreached & -> & Hreached & Hfailing).
      { exists c. split; assumption. }
      exists (a :: reached), failing, unreached.
      split; [reflexivity|]. split; [|exact Hfailing].
      intros c' Hc'. apply elem_of_cons in Hc' as [->|Hc'];
        [exact Ha | apply Hreached; exact Hc'].
Qed.

Lemma some_closed_elements (cs : gset conn) (w : world) :
  some_closed cs w ->
  exists reached failing unreached,
    elements cs = reached ++ failing :: unreached
    /\ (forall c, c ∈ reached -> c ∉ closed w)
    /\ failing ∈ closed w.
Proof.
  intros (c & Hc & Hclosed). apply first_closed.
  exists c. split; [apply elem_of_elements; exact Hc | exact Hclosed].
Qed.

(** The connections from the failing one on get no frame of a broadcast
    that stopped: the registry holds each connection once. *)
Lemma stopped_broadcast_skips
      (cs : gset conn) (reached : list conn) (failing : conn)
      (unreached : list conn) (p : pystr) :
  elements cs = reached ++ failing :: unreached ->
  forall c, c ∈ failing :: unreached ->
            (c, p) ∉ List.map (fun c => (c, p)) reached.
Proof.
  intros Horder c Hc Hin.
  pose proof (NoDup_elements cs) as Hnd. rewrite Horder in Hnd.
  apply NoDup_app in Hnd as (_ & Hdisjoint & _).
  apply list_elem_of_fmap in Hin as (c' & Heq & Hc').
  injection Heq as ->.
  exact (Hdisjoint c' Hc' Hc).
Qed.

Lemma all_open_registered (w : world) (self : conn) (name : pystr) :
  all_open w -> self ∉ closed w -> all_open (registered self name w).
Proof.
  intros Hopen Hself c Hc. simpl in *.
  apply elem_of_union in Hc as [Hc|Hc]; [apply Hopen; exact Hc|].
  apply elem_of_singleton in Hc. subst c. exact Hself.
Qed.

Section Types.
Context `{PyFloat}.

(** *** The type a client reads in the frames of the server *)

Lemma scan_once_name_any (f : nat) (s rest : pystr) :
  exists s',
    scan_once (S f) (encode_basestring_ascii s ++ rest) = POk (JStr s', rest).
Proof.
  destruct (scanstring_escape s rest) as (s' & Hs & _). exists s'.
  unfold encode_basestring_ascii. cbn [app].
  rewrite <- app_assoc. cbn [app].
  apply scan_once_string. exact Hs.
Qed.

(** The loop of [JSONArray] on encoded strings of any code points, up to
    the closing bracket. *)
Lemma parse_names_any (l : list pystr) :
  forall (s0 : pystr) (f : nat) (acc : list json) (rest : pystr),
  exists vs,
    parse_elems (S (S (length l + f)))
      (join (lit ", ") (List.map encode_basestring_ascii (s0 :: l))
         ++ 93 :: rest) acc
    = POk (JArr (acc ++ vs), rest).
Proof.
  induction l as [|s1 l IH]; intros s0 f acc rest.
  - cbn [List.map join length Nat.add].
    destruct (scan_once_name_any (S f) s0 (93 :: rest)) as (s' & Hs').
    exists [JStr s'].
    erewrite parse_elems_last; [ reflexivity | exact Hs' | reflexivity ].
  - change (join (lit ", ") (List.map encode_basestring_ascii (s0 :: s1 :: l)))
      with (encode_basestring_ascii s0
              ++ 44 :: 32
              :: join (lit ", ") (List.map encode_basestring_ascii (s1 :: l))).
    rewrite <- app_assoc. cbn [app].
    destruct (names_text_head s1 l) as (t & Ht).
    cbn [length Nat.add].
    match goal with
    | |- context [parse_elems (S ?n) (encode_basestring_ascii s0 ++ ?r) acc] =>
        destruct (scan_once_name_any (pred n) s0 r) as (s' & Hs')
    end.
    cbn [pred] in Hs'.
    erewrite parse_elems_more; [ | exact Hs' | reflexivity ].
    replace (skip_ws
               (32 :: join (lit ", ")
                        (List.map encode_basestring_ascii (s1 :: l))
                   ++ 93 :: rest))
      with (join (lit ", ") (List.map encode_basestring_ascii (s1 :: l))
              ++ 93 :: rest)
      by (rewrite Ht; reflexivity).
    destruct (IH s1 f (acc ++ [JStr s']) rest) as (vs & Hvs).
    exists (JStr s' :: vs). rewrite Hvs.
    rewrite <- app_assoc. reflexivity.
Qed.

(** The roster text parses to an object of type [clients], whatever code
    points the names hold. *)
Lemma roster_text_parses (names : list pystr) :
  exists vs,
    json_loads (json_dumps (clients_envelope names))
    = POk (JObj [(lit "type", JStr (lit "clients"));
                 (lit "clients", JArr vs)]).
Proof.
  rewrite roster_object_text. unfold json_loads.
  pose proof (names_text_length names) as Hlen.
  match goal with
  | |- context [(2 * length ?t + 2)%nat] =>
      assert (Hfuel : exists f,
                 (2 * length t + 2 = 4 + S (S (length (tl names) + f)))%nat)
  end.
  { match goal with
    | |- exists f, (2 * length ?t + 2 = _)%nat =>
        exists (2 * length t + 2 - 6 - length (tl names))%nat
    end.
    rewrite !length_app.
    cbn [app length lit List.map list_ascii_of_string] in *.
    destruct names; simpl in *; lia. }
  destruct Hfuel as (f & ->).
  eval_lits. cbn [app Nat.add skip_ws is_ws N.eqb Pos.eqb orb].
  destruct names as [|s0 l].
  - exists [].
    erewrite scan_once_object by reflexivity.
    erewrite parse_members_more;
      [ | reflexivity | reflexivity
        | apply scan_once_string; reflexivity | reflexivity | reflexivity ].
    erewrite parse_members_last;
      [ | reflexivity | reflexivity
        | apply scan_once_empty_array; reflexivity | reflexivity ].
    reflexivity.
  - destruct (parse_names_any l s0 f [] [125]) as (vs & Hvs).
    exists vs.
    erewrite scan_once_object by reflexivity.
    erewrite parse_members_more;
      [ | reflexivity | reflexivity
        | apply scan_once_string; reflexivity | reflexivity | reflexivity ].
    erewrite parse_members_last;
      [ | reflexivity | reflexivity
        | cbn [skip_ws is_ws N.eqb Pos.eqb orb tl];
          rewrite scan_once_names_array;
          exact Hvs
        | reflexivity ].
    reflexivity.
Qed.

Lemma frame_type_roster (names : list pystr) :
  frame_type (json_dumps (clients_envelope names)) = Some (lit "clients").
Proof.
  destruct (roster_text_parses names) as (vs & Hvs).
  unfold frame_type. rewrite Hvs. reflexivity.
Qed.

(** The welcome text parses to an object of type [welcome], whatever code
    points the name holds. *)
Lemma welcome_text_parses (body : pystr) :
  exists body',
    json_loads (json_dumps (JObj [(lit "type", JStr (lit "welcome"));
                                  (lit "message", JStr body)]))
    = POk (JObj [(lit "type", JStr (lit "welcome"));
                 (lit "message", JStr body')]).
Proof.
  destruct (scanstring_escape body [125]) as (body' & Hs & _).
  exists body'.
  rewrite welcome_object_text. unfold json_loads.
  budget_of_text.
  eval_lits. cbn [app Nat.add skip_ws is_ws N.eqb Pos.eqb orb] in Hs |- *.
  erewrite scan_once_object by reflexivity.
  erewrite parse_members_more;
    [ | reflexivity | reflexivity
      | apply scan_once_string; reflexivity | reflexivity | reflexivity ].
  erewrite parse_members_last;
    [ | reflexivity | reflexivity
      | apply scan_once_string; exact Hs | reflexivity ].
  reflexivity.
Qed.

Lemma frame_type_welcome (body : pystr) :
  frame_type (json_dumps (JObj [(lit "type", JStr (lit "welcome"));
                                (lit "message", JStr body)]))
  = Some (lit "welcome").
Proof.
  destruct (welcome_text_parses body) as (body' & Hb).
  unfold frame_type. rewrite Hb. reflexivity.
Qed.

Lemma no_welcome_among_rosters (names : list pystr) (cs : list conn) :
  List.filter is_welcome_frame
    (List.map (fun c => (c, json_dumps (clients_envelope names))) cs) = [].
Proof.
  induction cs as [|c cs IH]; [reflexivity|].
  cbn [List.map List.filter]. unfold is_welcome_frame at 1. cbn [snd].
  rewrite frame_type_roster. exact IH.
Qed.

End Types.

Section Channels.
Context `{PyFloat}.


(** C5, as amended: the roster [open] broadcasts is the object of type
    [clients] whose list is the presence set after the new user name was
    added.  When every registered channel and the new one are open, it is
    written to every registered connection, the new one included, before
    the welcome message.  When one of those channels is closed, [open]
    raises [WebSocketClosedError] at the first such connection of the
    iteration: only the connections before it got the roster. *)
Theorem open_broadcasts_fresh_roster
        (w : world) (self : conn) (requested : option pystr) (rand : N) :
  let name := assigned_username requested rand in
  let online := elements (online_clients w ∪ {[name]}) in
  let roster :=
    json_dumps (JObj [(lit "type", JStr (lit "clients"));
                      (lit "clients", JArr (List.map JStr online))]) in
  let recipients := elements (clients w ∪ {[self]}) in
  frame_type roster = Some (lit "clients")
  /\ (name ∈ online)
  /\ (forall u,
         u ∈ online <-> u ∈ online_clients (snd (open self requested rand w)))
  /\ clients (snd (open self requested rand w)) = clients w ∪ {[self]}
  /\ (all_open w -> self ∉ closed w ->
      exists w',
        open self requested rand w = (Return tt, w')
        /\ outbox w'
           = outbox w ++ List.map (fun c => (c, roster)) recipients
               ++ [(self, welcome_text name)]
        /\ ((self, roster) ∈ outbox w')
        /\ (forall c, c ∈ clients w -> (c, roster) ∈ outbox w'))
  /\ (some_closed (clients w ∪ {[self]}) w ->
      exists reached failing unreached,
        recipients = reached ++ failing :: unreached
        /\ (forall c, c ∈ reached -> c ∉ closed w)
        /\ failing ∈ closed w
        /\ open self requested rand w
           = (Raise WebSocketClosedError,
              sent_to reached roster (registered self name w))
        /\ (forall c,
               c ∈ failing :: unreached ->
               (c, roster) ∉ List.map (fun c => (c, roster)) reached)).
Proof.
  cbv zeta.
  set (name := assigned_username requested rand).
  split; [apply (frame_type_roster (elements (online_clients w ∪ {[name]})))|].
  destruct (open_world w self requested rand) as (sent & Hworld).
  fold name in Hworld.
  split; [apply elem_of_elements, added_present|].
  split; [intros u; rewrite Hworld; apply elem_of_elements|].
  split; [rewrite Hworld; reflexivity|].
  split.
  - intros Hopen Hself.
    pose proof (open_all_open w self requested rand Hopen Hself) as Hrun.
    cbv zeta in Hrun. fold name in Hrun. rewrite Hrun.
    eexists. split; [reflexivity|].
    assert (Hall : forall c,
               c ∈ clients w ∪ {[self]} ->
               (c, roster_text (registered self name w))
                 ∈ outbox
                     (sent_to [self] (welcome_text name)
                        (sent_to (elements (clients (registered self name w)))
                           (roster_text (registered self name w))
                           (registered self name w)))).
    { intros c Hc. simpl. apply elem_of_app. left.
      apply elem_of_app. right.
      apply list_elem_of_fmap. exists c. split; [reflexivity|].
      apply elem_of_elements. exact Hc. }
    split; [simpl; rewrite <- app_assoc; reflexivity|].
    split; [apply Hall, added_present|].
    intros c Hc. apply Hall, added_keeps. exact Hc.
  - intros Hclosed.
    destruct (some_closed_elements _ _ Hclosed)
      as (reached & failing & unreached & Horder & Hreached & Hfailing).
    exists reached, failing, unreached.
    split; [exact Horder|]. split; [exact Hreached|].
    split; [exact Hfailing|]. split.
    + unfold open. run. cbv zeta. fold name.
      fold (registered self name w).
      rewrite (update_clients_list_fails (registered self name w) self
                 reached failing unreached Horder Hreached Hfailing).
      reflexivity.
    + apply (stopped_broadcast_skips (clients w ∪ {[self]})). exact Horder.
Qed.

(** C8, as amended: the welcome text is the object of type [welcome] whose
    message is the greeting, the assigned user name and an exclamation
    mark.  When every registered channel and the new one are open, exactly
    one of the frames [open] writes carries a welcome envelope: that text,
    addressed to the new connection.  When one of those channels is closed,
    [open] raises [WebSocketClosedError] in the roster broadcast and none of
    the frames it wrote carries a welcome envelope. *)
Theorem open_sends_one_welcome
        (w : world) (self : conn) (requested : option pystr) (rand : N) :
  let name := assigned_username requested rand in
  let welcome :=
    json_dumps (JObj [(lit "type", JStr (lit "welcome"));
                      (lit "message", JStr (greeting ++ name ++ lit "!"))]) in
  frame_type welcome = Some (lit "welcome")
  /\ (all_open w -> self ∉ closed w ->
      exists w' frames,
        open self requested rand w = (Return tt, w')
        /\ outbox w' = outbox w ++ frames
        /\ List.filter is_welcome_frame frames = [(self, welcome)])
  /\ (some_closed (clients w ∪ {[self]}) w ->
      exists w' frames,
        open self requested rand w = (Raise WebSocketClosedError, w')
        /\ outbox w' = outbox w ++ frames
        /\ List.filter is_welcome_frame frames = []).
Proof.
  cbv zeta.
  set (name := assigned_username requested rand).
  split; [apply frame_type_welcome|].
  split.
  - intros Hopen Hself.
    pose proof (open_all_open w self requested rand Hopen Hself) as Hrun.
    cbv zeta in Hrun. fold name in Hrun. rewrite Hrun.
    eexists. eexists. split; [reflexivity|].
    split; [simpl; rewrite <- app_assoc; reflexivity|].
    rewrite List.filter_app.
    unfold roster_text. rewrite no_welcome_among_rosters.
    cbn [List.filter app]. unfold is_welcome_frame. cbn [snd].
    unfold welcome_text, welcome_envelope.
    rewrite frame_type_welcome. reflexivity.
  - intros Hclosed.
    destruct (some_closed_elements _ _ Hclosed)
      as (reached & failing & unreached & Horder & Hreached & Hfailing).
    eexists. eexists. split.
    { unfold open. run. cbv zeta. fold name.
      fold (registered self name w).
      rewrite (update_clients_list_fails (registered self name w) self
                 reached failing unreached Horder Hreached Hfailing).
      reflexivity. }
    split; [reflexivity|].
    unfold roster_text. apply no_welcome_among_rosters.
Qed.

End Channels.

End DeliveryFacts.

(** * The further theorems on concrete worlds *)

Module MoreWitnesses.
Import Chat ChatFacts Props JsonExact MoreFacts Scenario.

Lemma presence_exact_w_alice : presence_exact w_alice.
Proof.
  split.
  - intros c Hc. unfold w_alice in Hc. simpl in Hc.
    apply elem_of_singleton in Hc. subst c.
    exists alice. split; [reflexivity | vm_compute; reflexivity].
  - intros u Hu. unfold w_alice in Hu. simpl in Hu.
    apply elem_of_singleton in Hu. subst u.
    exists 1%nat. split; [vm_compute; reflexivity | reflexivity].
Qed.

Lemma distinct_names_w_alice : distinct_names w_alice.
Proof.
  intros c1 c2 u Hc1 Hc2 _ _. unfold w_alice in Hc1, Hc2. simpl in Hc1, Hc2.
  apply elem_of_singleton in Hc1. apply elem_of_singleton in Hc2.
  congruence.
Qed.

Lemma bob_not_online_w_alice : bob ∉ online_clients w_alice.
Proof.
  intros Hin. unfold w_alice in Hin. simpl in Hin.
  apply elem_of_singleton in Hin. vm_compute in Hin.
  discriminate Hin.
Qed.

Lemma two_not_registered_w_alice : 2%nat ∉ clients w_alice.
Proof.
  intros Hin. unfold w_alice in Hin. simpl in Hin.
  apply elem_of_singleton in Hin. discriminate Hin.
Qed.

(** X1 on alice and a text with a quotation mark, an accented letter, an
    emoji and a line feed. *)
Lemma published_text_decodes_exactly_witness :
  well_formed alice /\ well_formed tricky
  /\ json_loads (json_dumps (message_envelope alice tricky))
     = POk (message_envelope alice tricky).
Proof.
  assert (Ha : well_formed alice) by (vm_compute; reflexivity).
  assert (Ht : well_formed tricky) by (vm_compute; reflexivity).
  split; [exact Ha|]. split; [exact Ht|].
  exact (published_text_decodes_exactly alice tricky Ha Ht).
Defined.

(** X2 on alice. *)
Lemma welcome_text_decodes_exactly_witness :
  well_formed alice
  /\ json_loads (welcome_text alice)
     = POk (JObj [(lit "type", JStr (lit "welcome"));
                  (lit "message", JStr (greeting ++ alice ++ lit "!"))]).
Proof.
  assert (Ha : well_formed alice) by (vm_compute; reflexivity).
  split; [exact Ha|].
  exact (welcome_text_decodes_exactly alice Ha).
Defined.

(** X3 on the roster of alice and bob. *)
Lemma roster_text_decodes_exactly_witness :
  Forall well_formed [alice; bob]
  /\ json_loads (json_dumps (clients_envelope [alice; bob]))
     = POk (JObj [(lit "type", JStr (lit "clients"));
                  (lit "clients", JArr [JStr alice; JStr bob])]).
Proof.
  assert (Hall : Forall well_formed [alice; bob])
    by (repeat constructor; vm_compute; reflexivity).
  split; [exact Hall|].
  exact (roster_text_decodes_exactly [alice; bob] Hall).
Defined.

(** X7 on the world of two connections of alice: connection 1 sends two
    texts. *)
Lemma texts_are_delivered_in_order_witness :
  username w_shared !! 1%nat = Some alice /\ all_open w_shared
  /\ exists w1,
      for_each [lit "hi"; tricky] (on_message 1%nat) w_shared = (Return tt, w1)
      /\ published w1
         = published w_shared
             ++ List.map (fun t => (lit "chat_channel", t))
                  (envelopes_of alice [lit "hi"; tricky])
      /\ redis_listener
           (List.map delivery (envelopes_of alice [lit "hi"; tricky])) w1
         = (Return tt,
            set_outbox
              (fun o => o ++ deliveries (elements (clients w_shared))
                              (envelopes_of alice [lit "hi"; tricky])) w1).
Proof.
  split; [reflexivity|]. split; [exact Witnesses.all_open_w_shared|].
  exact (texts_are_delivered_in_order w_shared 1%nat alice [lit "hi"; tricky]
           eq_refl Witnesses.all_open_w_shared).
Defined.

(** X8 on the world with a closing connection: connection 2, whose channel
    is closed, is closed; connection 1 gets the roster without bob. *)
Lemma close_notifies_the_others_witness :
  (2%nat ∈ clients w_stale) /\ username w_stale !! 2%nat = Some bob
  /\ (2%nat ∈ closed w_stale)
  /\ exists w',
      on_close 2%nat w_stale = (Return tt, w')
      /\ outbox w'
         = [(1%nat,
             json_dumps
               (clients_envelope (elements (online_clients w_stale ∖ {[bob]}))))]
      /\ clients w' = clients w_stale ∖ {[2%nat]}
      /\ online_clients w' = online_clients w_stale ∖ {[bob]}.
Proof.
  assert (Hin : 2%nat ∈ clients w_stale) by (vm_compute; reflexivity).
  split; [exact Hin|]. split; [reflexivity|].
  split; [vm_compute; reflexivity|].
  destruct (close_notifies_the_others w_stale 2%nat bob Hin eq_refl)
    as (w' & Hrun & Hout & Hclients & Honline).
  { intros c Hc Hne Hclosed. apply Hne.
    unfold w_stale in Hclosed. simpl in Hclosed.
    apply elem_of_singleton in Hclosed. exact Hclosed. }
  exists w'. split; [exact Hrun|]. split; [|split; assumption].
  rewrite Hout. reflexivity.
Defined.

(** X10 on the world of alice: bob opens connection 2. *)
Lemma open_keeps_presence_exact_witness :
  presence_exact w_alice /\ distinct_names w_alice
  /\ (2%nat ∉ clients w_alice)
  /\ (assigned_username (Some bob) 0 ∉ online_clients w_alice)
  /\ presence_exact (snd (open 2%nat (Some bob) 0 w_alice))
  /\ distinct_names (snd (open 2%nat (Some bob) 0 w_alice)).
Proof.
  split; [exact presence_exact_w_alice|].
  split; [exact distinct_names_w_alice|].
  split; [exact two_not_registered_w_alice|].
  split; [exact bob_not_online_w_alice|].
  exact (open_keeps_presence_exact w_alice 2%nat (Some bob) 0
           presence_exact_w_alice distinct_names_w_alice
           two_not_registered_w_alice bob_not_online_w_alice).
Defined.

(** X11 on the world of alice: her connection closes. *)
Lemma close_keeps_presence_exact_witness :
  presence_exact w_alice /\ distinct_names w_alice
  /\ (1%nat ∈ clients w_alice)
  /\ presence_exact (snd (on_close 1%nat w_alice))
  /\ distinct_names (snd (on_close 1%nat w_alice)).
Proof.
  assert (Hin : 1%nat ∈ clients w_alice) by (vm_compute; reflexivity).
  split; [exact presence_exact_w_alice|].
  split; [exact distinct_names_w_alice|].
  split; [exact Hin|].
  exact (close_keeps_presence_exact w_alice 1%nat
           presence_exact_w_alice distinct_names_w_alice Hin).
Defined.

(** X12 on the world whose connection 1 is closing: carol opens
    connection 3; the roster reaches connections 2 and 3, the send to
    connection 1 raises, and carol gets no welcome message. *)
Lemma open_fails_after_registering_witness :
  elements (clients (registered 3%nat carol w_late))
  = [2%nat; 3%nat] ++ 1%nat :: []
  /\ (1%nat ∈ closed w_late)
  /\ open 3%nat (Some carol) 0 w_late
     = (Raise WebSocketClosedError,
        sent_to [2%nat; 3%nat]
                (roster_text (registered 3%nat carol w_late))
                (registered 3%nat carol w_late)).
Proof.
  assert (Horder : elements (clients (registered 3%nat carol w_late))
                   = [2%nat; 3%nat] ++ 1%nat :: [])
    by (vm_compute; reflexivity).
  assert (Hclosed : 1%nat ∈ closed w_late) by (vm_compute; reflexivity).
  split; [exact Horder|]. split; [exact Hclosed|].
  apply (open_fails_after_registering w_late 3%nat (Some carol) 0
           [2%nat; 3%nat] 1%nat [] Horder); [|exact Hclosed].
  intros c Hc Hcl. unfold w_late in Hcl. simpl in Hcl.
  apply elem_of_singleton in Hcl. subst c.
  apply elem_of_cons in Hc as [Hc|Hc]; [discriminate Hc|].
  apply elem_of_cons in Hc as [Hc|Hc]; [discriminate Hc|].
  inversion Hc.
Defined.

(** X13 on the world with a closing connection: connection 1 closes; the
    send to the closing connection 2 raises, and connection 1 and alice are
    gone. *)
Lemma close_fails_after_unregistering_witness :
  (1%nat ∈ clients w_stale) /\ username w_stale !! 1%nat = Some alice
  /\ elements (clients (unregistered 1%nat alice w_stale))
     = [] ++ 2%nat :: []
  /\ (2%nat ∈ closed w_stale)
  /\ on_close 1%nat w_stale
     = (Raise WebSocketClosedError,
        sent_to [] (roster_text (unregistered 1%nat alice w_stale))
                (unregistered 1%nat alice w_stale)).
Proof.
  assert (Hin : 1%nat ∈ clients w_stale) by (vm_compute; reflexivity).
  assert (Horder : elements (clients (unregistered 1%nat alice w_stale))
                   = [] ++ 2%nat :: [])
    by (vm_compute; reflexivity).
  assert (Hclosed : 2%nat ∈ closed w_stale) by (vm_compute; reflexivity).
  split; [exact Hin|]. split; [reflexivity|].
  split; [exact Horder|]. split; [exact Hclosed|].
  apply (close_fails_after_unregistering w_stale 1%nat alice [] 2%nat []
           Hin eq_refl Horder); [|exact Hclosed].
  intros c Hc. inversion Hc.
Defined.

End MoreWitnesses.

(** * Delivery on concrete worlds *)

Module DeliveryWitnesses.
Import Chat ChatFacts Props MoreFacts DeliveryFacts Scenario.


Lemma some_closed_w_late :
  some_closed (clients w_late ∪ {[3%nat]}) w_late.
Proof. exists 1%nat. split; vm_compute; reflexivity. Qed.



(** C5, as amended, on the world of alice, where bob opens connection 2 and
    both connections get the roster; and on the world whose connection 1 is
    closing, where the [open] of carol raises. *)
Lemma open_broadcasts_fresh_roster_witness :
  all_open w_alice /\ (2%nat ∉ closed w_alice)
  /\ some_closed (clients w_late ∪ {[3%nat]}) w_late
  /\ frame_type
       (json_dumps
          (JObj [(lit "type", JStr (lit "clients"));
                 (lit "clients",
                  JArr (List.map JStr
                          (elements (online_clients w_alice ∪ {[bob]}))))]))
     = Some (lit "clients")
  /\ (exists w',
         open 2%nat (Some bob) 0 w_alice = (Return tt, w')
         /\ length (outbox w') = 3%nat
         /\ ((1%nat,
              json_dumps
                (JObj [(lit "type", JStr (lit "clients"));
                       (lit "clients",
                        JArr (List.map JStr
                                (elements (online_clients w_alice ∪ {[bob]}))))]))
               ∈ outbox w'))
  /\ fst (open 3%nat (Some carol) 0 w_late) = Raise WebSocketClosedError.
Proof.
  split; [exact Witnesses.all_open_w_alice|].
  split; [apply not_elem_of_empty|].
  split; [exact some_closed_w_late|].
  destruct (open_broadcasts_fresh_roster w_alice 2%nat (Some bob) 0)
    as (Htype & _ & _ & _ & Hopen & _).
  destruct (open_broadcasts_fresh_roster w_late 3%nat (Some carol) 0)
    as (_ & _ & _ & _ & _ & Hstop).
  split; [exact Htype|].
  destruct (Hopen Witnesses.all_open_w_alice (not_elem_of_empty 2%nat))
    as (w' & Hrun & Hout & _ & Hall).
  destruct (Hstop some_closed_w_late)
    as (reached & failing & unreached & _ & _ & _ & Hraise & _).
  split.
  - exists w'. split; [exact Hrun|].
    split; [rewrite Hout; vm_compute; reflexivity|].
    apply Hall. vm_compute. reflexivity.
  - rewrite Hraise. reflexivity.
Defined.

(** C5, as stated, fails on the world whose connection 1 is closing: carol
    opens connection 3, [open] raises in the roster broadcast, in whatever
    order the registry is iterated, and connection 1, which is registered,
    is sent no roster. *)
Lemma open_skips_closing_connection :
  (1%nat ∈ clients w_late)
  /\ fst (open 3%nat (Some carol) 0 w_late) = Raise WebSocketClosedError
  /\ (1%nat ∈ clients (snd (open 3%nat (Some carol) 0 w_late)))
  /\ (forall p, (1%nat, p) ∉ outbox (snd (open 3%nat (Some carol) 0 w_late))).
Proof.
  split; [vm_compute; reflexivity|].
  split; [vm_compute; reflexivity|].
  split; [vm_compute; reflexivity|].
  intros p Hin. vm_compute in Hin.
  repeat (apply elem_of_cons in Hin as [Hin|Hin]; [discriminate Hin|]).
  inversion Hin.
Qed.

(** C8, as amended, on the world of alice, where a connection opens with no
    user name and gets the one welcome message; and on the world whose
    connection 1 is closing, where the [open] of carol raises and writes no
    welcome message. *)
Lemma open_sends_one_welcome_witness :
  all_open w_alice /\ (2%nat ∉ closed w_alice)
  /\ some_closed (clients w_late ∪ {[3%nat]}) w_late
  /\ (exists w' frames,
         open 2%nat None 0 w_alice = (Return tt, w')
         /\ outbox w' = outbox w_alice ++ frames
         /\ List.filter is_welcome_frame frames
            = [(2%nat, welcome_text (assigned_username None 0))])
  /\ (exists w' frames,
         open 3%nat (Some carol) 0 w_late = (Raise WebSocketClosedError, w')
         /\ outbox w' = outbox w_late ++ frames
         /\ List.filter is_welcome_frame frames = []).
Proof.
  split; [exact Witnesses.all_open_w_alice|].
  split; [apply not_elem_of_empty|].
  split; [exact some_closed_w_late|].
  destruct (open_sends_one_welcome w_alice 2%nat None 0) as (_ & Hopen & _).
  destruct (open_sends_one_welcome w_late 3%nat (Some carol) 0)
    as (_ & _ & Hstop).
  split.
  - exact (Hopen Witnesses.all_open_w_alice (not_elem_of_empty 2%nat)).
  - exact (Hstop some_closed_w_late).
Defined.

(** C8, as stated, fails on the world whose connection 1 is closing: carol
    opens connection 3, [open] raises in the roster broadcast, in whatever
    order the registry is iterated, before it writes the welcome message;
    no frame it wrote is a welcome envelope. *)
Lemma failed_open_sends_no_welcome :
  (3%nat ∉ closed w_late)
  /\ fst (open 3%nat (Some carol) 0 w_late) = Raise WebSocketClosedError
  /\ List.filter is_welcome_frame
       (outbox (snd (open 3%nat (Some carol) 0 w_late))) = []
  /\ (forall c, (c, welcome_text carol)
                  ∉ outbox (snd (open 3%nat (Some carol) 0 w_late))).
Proof.
  split; [intros Hin; vm_compute in Hin; discriminate Hin|].
  split; [vm_compute; reflexivity|].
  split; [vm_compute; reflexivity|].
  intros c Hin. vm_compute in Hin.
  repeat (apply elem_of_cons in Hin as [Hin|Hin]; [discriminate Hin|]).
  inversion Hin.
Qed.

End DeliveryWitnesses.
